(** * The pylint adapter of prospector: a shallow embedding

    This development embeds [prospector/tools/pylint/__init__.py]
    (class [PylintTool]) and checks the properties stated about it:
    message combination, scan-root reduction, the handling of the shared
    module search path, and the layering of the linter configuration.

    Python values are modelled by value; exceptions by the [result] monad;
    a [dict] whose iteration order is observed by an association list in
    insertion order; collaborators that live outside the module (pylint,
    the file finder, the operating system) by the record [Host]. *)

From Stdlib Require Import ZArith Lia Bool Ascii String.
From stdpp Require Import base option list strings gmap.

(** ** Exceptions and the error monad *)

Inductive exn : Type :=
  | AttributeError (what : string)
  | TypeError (what : string)
  | ImportError (modname : string)
  | UnknownMessageError (msgid : string)
  | EngineError (what : string).

Inductive result (A : Type) : Type :=
  | Ok (a : A)
  | Raise (e : exn).
Arguments Ok {A} a.
Arguments Raise {A} e.

Global Instance result_ret : MRet result := fun A a => Ok a.
Global Instance result_bind : MBind result := fun A B f m =>
  match m with
  | Ok a => f a
  | Raise e => Raise e
  end.
Global Instance result_fmap : FMap result := fun A B f m =>
  match m with
  | Ok a => Ok (f a)
  | Raise e => Raise e
  end.

Definition raises {A} (m : result A) : Prop := ∃ e, m = Raise e.
Definition returns {A} (m : result A) : Prop := ∃ a, m = Ok a.

(** ** Strings *)

Module Str.

(** [s[len(p):]] when [s.startswith(p)]. *)
Fixpoint strip_prefix (p s : string) : option string :=
  match p, s with
  | EmptyString, _ => Some s
  | String a p', String b s' =>
      if Ascii.eqb a b then strip_prefix p' s' else None
  | String _ _, EmptyString => None
  end.

Definition startswith (s p : string) : bool :=
  match strip_prefix p s with Some _ => true | None => false end.

Fixpoint endswith_char (s : string) (c : ascii) : bool :=
  match s with
  | EmptyString => false
  | String a EmptyString => Ascii.eqb a c
  | String _ s' => endswith_char s' c
  end.

(** [sep.join(items)] on items that are all [str]. *)
Fixpoint join (sep : string) (items : list string) : string :=
  match items with
  | [] => ""
  | [x] => x
  | x :: rest => x +:+ sep +:+ join sep rest
  end.

(** [s.split(sep)] for a one character separator: never empty. *)
Fixpoint split_go (sep : ascii) (cur : string) (s : string) : list string :=
  match s with
  | EmptyString => [String.rev cur]
  | String c s' =>
      if Ascii.eqb c sep then String.rev cur :: split_go sep "" s'
      else split_go sep (String c cur) s'
  end.
Definition split (sep : ascii) (s : string) : list string := split_go sep "" s.

(** [s.rstrip(c)] *)
Fixpoint rstrip (c : ascii) (s : string) : string :=
  match s with
  | EmptyString => ""
  | String a s' =>
      match rstrip c s' with
      | EmptyString => if Ascii.eqb a c then "" else String a ""
      | r => String a r
      end
  end.

Fixpoint all_char (c : ascii) (s : string) : bool :=
  match s with
  | EmptyString => true
  | String a s' => Ascii.eqb a c && all_char c s'
  end.

End Str.

(** ** The message pattern

    [_UNUSED_WILDCARD_IMPORT_RE] is the compiled pattern

      ^Unused import(\(s\))? (G) from wildcard import

    where G stands for "any characters" (dot, star). It has two capturing
    groups, numbered by their opening parenthesis: group 1 is the optional
    literal "(s)", group 2 is the greedy G. *)

Module Re.

Definition newline : ascii := "010"%char.

(** G followed by [lit], matched at the start of [s]: the greedy star takes
    as many characters other than a newline as it can and gives them back
    one by one until [lit] matches; the captured text is returned. *)
Fixpoint dot_star_then (lit s : string) : option string :=
  let here := if Str.startswith s lit then Some ""%string else None in
  match s with
  | EmptyString => here
  | String c s' =>
      if Ascii.eqb c newline then here
      else match dot_star_then lit s' with
           | Some cap => Some (String c cap)
           | None => here
           end
  end.

(** A match object: [group(1)] is [None] when the optional group did not
    take part in the match. *)
Record match_obj : Type := MatchObj {
  group1 : option string;
  group2 : string
}.

(** The pattern after the optional group: a space, G, and the literal
    " from wildcard import". *)
Definition tail (s : string) : option string :=
  Str.strip_prefix " " s ≫= dot_star_then " from wildcard import".

(** [_UNUSED_WILDCARD_IMPORT_RE.match(s)]; [None] when there is no match.
    The optional group is tried first, then skipped. *)
Definition _UNUSED_WILDCARD_IMPORT_RE_match (s : string) : option match_obj :=
  rest ← Str.strip_prefix "Unused import" s;
  match Str.strip_prefix "(s)" rest ≫= tail with
  | Some g2 => Some (MatchObj (Some "(s)"%string) g2)
  | None => MatchObj None <$> tail rest
  end.

End Re.

(** ** Locations and messages *)

(** Modelled from the spec: [prospector.message.Location] is not part of the
    module. Its constructor takes (path, module, function, line, character),
    as the call in [_error_message] shows; following the data model it is
    hashable and totally ordered by file, then line, then column, so two
    locations are the same dictionary key exactly when they agree on these
    three fields. *)
Record Location : Type := mkLocation {
  loc_path : string;
  loc_module : option string;
  loc_function : option string;
  loc_line : Z;
  loc_character : Z
}.

Definition Location_eqb (a b : Location) : bool :=
  String.eqb (loc_path a) (loc_path b)
  && Z.eqb (loc_line a) (loc_line b)
  && Z.eqb (loc_character a) (loc_character b).

Definition Location_ltb (a b : Location) : bool :=
  if String.eqb (loc_path a) (loc_path b) then
    if Z.eqb (loc_line a) (loc_line b) then
      Z.ltb (loc_character a) (loc_character b)
    else Z.ltb (loc_line a) (loc_line b)
  else String.ltb (loc_path a) (loc_path b).

(** Modelled from the spec: [prospector.message.Message] is not part of the
    module. Its constructor takes (source, code, location, message); it is
    ordered by (location, code, source, message). *)
Record Message : Type := mkMessage {
  source : string;
  code : string;
  location : Location;
  message : string
}.

Definition Message_ltb (a b : Message) : bool :=
  if Location_eqb (location a) (location b) then
    if String.eqb (code a) (code b) then
      if String.eqb (source a) (source b) then
        String.ltb (message a) (message b)
      else String.ltb (source a) (source b)
    else String.ltb (code a) (code b)
  else Location_ltb (location a) (location b).

(** ** [sorted]

    Python's [sorted] is a stable sort that compares with [<] only. For a
    strict weak order its result is the unique stable arrangement, which
    insertion from the right computes: an element moves past exactly the
    elements that are smaller than it. *)
Section Sorted.
Context {A : Type} (ltb : A → A → bool).

Fixpoint insert_sorted (x : A) (l : list A) : list A :=
  match l with
  | [] => [x]
  | y :: l' => if ltb y x then y :: insert_sorted x l' else x :: y :: l'
  end.

Fixpoint sorted (l : list A) : list A :=
  match l with
  | [] => []
  | x :: l' => insert_sorted x (sorted l')
  end.

(** No element is smaller than its predecessor. *)
Fixpoint ascending (l : list A) : bool :=
  match l with
  | [] => true
  | x :: l' =>
      match l' with
      | [] => true
      | y :: _ => negb (ltb y x) && ascending l'
      end
  end.
End Sorted.

(** ** Combining messages *)

Definition W0614 : string := "unused-wildcard-import".

(** [by_loc[loc].append(m)] on a [defaultdict(list)]: the dictionary keeps
    its keys in insertion order and keeps the first key object among equal
    ones. *)
Fixpoint by_loc_append (loc : Location) (m : Message)
    (by_loc : list (Location * list Message)) : list (Location * list Message) :=
  match by_loc with
  | [] => [(loc, [m])]
  | (k, ms) :: rest =>
      if Location_eqb k loc then (k, ms ++ [m]) :: rest
      else (k, ms) :: by_loc_append loc m rest
  end.

(** The first loop of [_combine_w0614]: [(by_loc, out)] after the
    messages have been distributed. *)
Fixpoint partition_w0614 (messages : list Message)
    (by_loc : list (Location * list Message)) (out : list Message)
    : list (Location * list Message) * list Message :=
  match messages with
  | [] => (by_loc, out)
  | m :: rest =>
      if String.eqb (code m) W0614
      then partition_w0614 rest (by_loc_append (location m) m by_loc) out
      else partition_w0614 rest by_loc (out ++ [m])
  end.

(** [_UNUSED_WILDCARD_IMPORT_RE.match(msg.message).group(1)]: calling
    [.group] on [None] raises [AttributeError]. *)
Definition extract_name (msg : Message) : result (option string) :=
  match Re._UNUSED_WILDCARD_IMPORT_RE_match (message msg) with
  | None => Raise (AttributeError "'NoneType' object has no attribute 'group'")
  | Some mo => Ok (Re.group1 mo)
  end.

(** The inner loop: [names] grows by one entry per message of the group. *)
Fixpoint collect_names (message_list : list Message) (names : list (option string))
    : result (list (option string)) :=
  match message_list with
  | [] => Ok names
  | msg :: rest =>
      n ← extract_name msg;
      collect_names rest (names ++ [n])
  end.

(** [", ".join(names)]: every item has to be a [str]. *)
Definition join_names (names : list (option string)) : result string :=
  match mapM id names with
  | Some strs => Ok (Str.join ", " strs)
  | None => Raise (TypeError "sequence item: expected str instance, NoneType found")
  end.

(** The second loop of [_combine_w0614], over [by_loc.items()]. *)
Fixpoint synthesize (groups : list (Location * list Message)) (out : list Message)
    : result (list Message) :=
  match groups with
  | [] => Ok out
  | (loc, message_list) :: rest =>
      names ← collect_names message_list [];
      joined ← join_names names;
      let msgtxt := "Unused imports from wildcard import: " +:+ joined in
      let combined_message := mkMessage "pylint" W0614 loc msgtxt in
      synthesize rest (out ++ [combined_message])
  end.

Definition _combine_w0614 (messages : list Message) : result (list Message) :=
  let '(by_loc, out) := partition_w0614 messages [] [] in
  synthesize by_loc out.

Definition combine (messages : list Message) : result (list Message) :=
  combined ← _combine_w0614 messages;
  Ok (sorted Message_ltb combined).

(** ** [os.path] on a POSIX host *)

Module OsPath.

Definition sep : ascii := "/"%char.

(** [(p[:i], p[i:])] for [i = p.rfind("/") + 1]. *)
Fixpoint cut_last_sep (p : string) : string * string :=
  match p with
  | EmptyString => (""%string, ""%string)
  | String c p' =>
      let '(h, t) := cut_last_sep p' in
      if Ascii.eqb c sep then (String c h, t)
      else match h with
           | EmptyString => (""%string, String c t)
           | _ => (String c h, t)
           end
  end.

(** The head loses its trailing separators unless it consists of
    separators only. *)
Definition strip_head (head : string) : string :=
  match head with
  | EmptyString => head
  | _ => if Str.all_char sep head then head else Str.rstrip sep head
  end.

(** [os.path.split(p)]: always a pair (head, tail). *)
Definition split (p : string) : string * string :=
  let '(head, tail) := cut_last_sep p in (strip_head head, tail).

(** [os.path.dirname(p)] *)
Definition dirname (p : string) : string := strip_head (fst (cut_last_sep p)).

(** One step of [os.path.join]: an absolute component restarts the path. *)
Definition join2 (path b : string) : string :=
  if Str.startswith b "/" then b
  else match path with
       | EmptyString => b
       | _ => if Str.endswith_char path sep then path +:+ b
              else path +:+ "/" +:+ b
       end.

(** [os.path.join(a, *p)] *)
Definition join (a : string) (p : list string) : string := foldl join2 a p.

(** [os.path.join] applied to an unpacked sequence: the first argument is
    required. *)
Definition join_star (args : list string) : result string :=
  match args with
  | [] => Raise (TypeError "join() missing 1 required positional argument: 'a'")
  | a :: p => Ok (join a p)
  end.

End OsPath.

(** ** Python sets of strings

    A [set] is kept as the list of its elements in insertion order; the order
    in which Python iterates over it is decided by the hash table, so it is
    a function [set_iter] of the host (see [Host]). *)

Definition set_add (x : string) (s : list string) : list string :=
  if bool_decide (x ∈ s) then s else s ++ [x].

Definition set_of_list (l : list string) : list string := foldl (flip set_add) [] l.

(** ** The file finder *)

(** [prospector.finder.FileFinder] as the adapter sees it. *)
Record FileFinder : Type := mkFileFinder {
  iter_package_paths : list string;     (* iter_package_paths(abspath=False) *)
  iter_module_paths : list string;      (* iter_module_paths(abspath=False) *)
  to_absolute_path : string → string;
  python_packages : list string;
  python_modules : list string;
  make_syspath : list string
}.

(** ** Scan roots: [_get_pylint_check_paths] *)

(** [packages.sort(key=len)] *)
Definition sort_by_len (packages : list (list string)) : list (list string) :=
  sorted (fun a b => (length a <? length b)%nat) packages.

(** The [for i in range(...)] loops with [break]: [true] when a prefix of
    [package] is already among the check paths. [prefix_len i] is the length
    of the slice taken at step [i]. *)
Fixpoint prefix_retained (check_paths : list string) (package : list string)
    (prefix_len : nat → nat) (steps : list nat) : result bool :=
  match steps with
  | [] => Ok false
  | i :: rest =>
      p ← OsPath.join_star (take (prefix_len i) package);
      if bool_decide (p ∈ check_paths) then Ok true
      else prefix_retained check_paths package prefix_len rest
  end.

(** The loop over the packages. *)
Fixpoint add_packages (packages : list (list string)) (check_paths : list string)
    : result (list string) :=
  match packages with
  | [] => Ok check_paths
  | package :: rest =>
      package_path ← OsPath.join_star package;
      if (length package =? 1)%nat then
        add_packages rest (set_add package_path check_paths)
      else
        (* package[:-i] for i in range(1, len(package)) *)
        covered ← prefix_retained check_paths package
                    (fun i => (length package - i)%nat)
                    (seq 1 (length package - 1));
        if (covered : bool) then add_packages rest check_paths
        else add_packages rest (set_add package_path check_paths)
  end.

(** The loop over the modules. *)
Fixpoint add_modules (filepaths : list string) (check_paths : list string)
    : result (list string) :=
  match filepaths with
  | [] => Ok check_paths
  | filepath :: rest =>
      let package := Str.split OsPath.sep (OsPath.dirname filepath) in
      (* package[: i + 1] for i in range(0, len(package)) *)
      covered ← prefix_retained check_paths package
                  (fun i => (i + 1)%nat) (seq 0 (length package));
      if (covered : bool) then add_modules rest check_paths
      else add_modules rest (set_add filepath check_paths)
  end.

(** The set [check_paths] before it is made absolute. *)
Definition check_paths_set (found_files : FileFinder) : result (list string) :=
  let packages :=
    (λ p : string, let '(h, t) := OsPath.split p in [h; t])
      <$> iter_package_paths found_files in
  let packages := sort_by_len packages in
  check_paths ← add_packages packages [];
  add_modules (iter_module_paths found_files) check_paths.

Definition _get_pylint_check_paths (set_iter : list string → list string)
    (found_files : FileFinder) : result (list string) :=
  check_paths ← check_paths_set found_files;
  Ok (to_absolute_path found_files <$> set_iter check_paths).

(** [p] is a proper ancestor of [q]: its segments are a proper prefix. *)
Definition is_ancestor (p q : string) : bool :=
  let sp := Str.split OsPath.sep p in
  let sq := Str.split OsPath.sep q in
  bool_decide (sp `prefix_of` sq) && negb (bool_decide (sp = sq)).

(** ** Python values held by option dictionaries *)

Inductive pyval : Type :=
  | PyNone
  | PyBool (b : bool)
  | PyInt (n : Z)
  | PyStr (s : string).

Global Instance pyval_eq_dec : EqDecision pyval.
Proof. solve_decision. Defined.

(** Truth value testing, as used by [not], [or] and [if]. *)
Definition truthy (v : pyval) : bool :=
  match v with
  | PyNone => false
  | PyBool b => b
  | PyInt n => negb (n =? 0)%Z
  | PyStr s => negb (String.eqb s "")
  end.

(** [a or b] *)
Definition py_or (a b : pyval) : pyval := if truthy a then a else b.

(** [d.get(k)] *)
Definition dict_get (d : gmap string pyval) (k : string) : pyval :=
  default PyNone (d !! k).

(** ** The project configuration *)

(** [prospector_config] as the adapter reads it. *)
Record ProspectorConfig : Type := mkProspectorConfig {
  libraries : list string;
  workdir : string;
  profile_name : string;
  profile_load_plugins : list string;   (* profile.pylint.get("load-plugins", []) *)
  get_disabled_messages : list string;  (* get_disabled_messages("pylint") *)
  tool_options : gmap string pyval;     (* tool_options("pylint") *)
  max_line_length : option Z;
  use_external_config : bool;           (* use_external_config("pylint") *)
  external_config_location : pyval      (* external_config_location("pylint") *)
}.

(** ** The linter

    The linter is pylint's object: the adapter only calls its methods. Its
    state is the history of the calls made on it, oldest first; what a call
    answers is decided by the host. *)

Inductive Call : Type :=
  | LoadCommandLineConfiguration (paths : list string)
  | LoadDefaultPlugins
  | LoadPluginModules (modnames : list string)
  | Disable (msgid : string)
  | Enable (msgid : string)
  | SetOption (checker : string) (name : string) (value : pyval)
  | ConfigFromFile (config_file : pyval)
  | SetReporter
  | SetJobs (n : Z)
  | Check (args : option (list string)).

Definition Linter : Type := list Call.

(** A checker: its name and, when it has the attribute [options], the names
    of the options it declares (the first component of each entry). *)
Record Checker : Type := mkChecker {
  checker_name : string;
  options : option (list string)
}.

(** ** The host: everything the adapter asks of its collaborators *)

Record Host : Type := mkHost {
  (* Python and the operating system *)
  set_iter : list string → list string; (* iteration order of a set, given
                                           its elements in insertion order *)
  absolute : string → string;           (* Path.absolute *)
  path_exists : string → bool;          (* os.path.exists *)
  (* pylint *)
  find_pylintrc : pyval;
  _cpu_count : Z;
  importable : string → bool;           (* can the plugin module be imported *)
  known_msgid : string → bool;          (* does the message id exist *)
  get_checkers : Linter → list Checker;
  command_line_args : list string → list string;
  plugins_loaded_by : pyval → bool;     (* what config_from_file returns *)
  config_load_plugins : Linter → option (list string);
  config_jobs : Linter → Z;
  (* running the checks: what is raised or reported, and the search path
     the engine leaves behind *)
  check : Linter → option (list string) → list string
          → result (list Message) * list string;
  (* the state a configuration file gives to a message id, if any *)
  file_msg_state : pyval → string → option bool
}.

(** ** State and exceptions *)

Definition SE (S A : Type) : Type := S → result A * S.

Global Instance SE_ret {S} : MRet (SE S) := λ A a s, (Ok a, s).
Global Instance SE_bind {S} : MBind (SE S) := λ A B f m s,
  match m s with
  | (Ok a, s') => f a s'
  | (Raise e, s') => (Raise e, s')
  end.

Definition raise {S A} (e : exn) : SE S A := λ s, (Raise e, s).
Definition gets {S A} (f : S → A) : SE S A := λ s, (Ok (f s), s).
Definition modify {S} (f : S → S) : SE S () := λ s, (Ok (), f s).
Definition lift_result {S A} (r : result A) : SE S A := λ s, (r, s).

(** [try: m except E: handler]: [catch] selects the exceptions handled. *)
Definition try_except {S A} (m : SE S A) (catch : exn → option (SE S A)) : SE S A :=
  λ s, match m s with
       | (Raise e, s') =>
           match catch e with
           | Some handler => handler s'
           | None => (Raise e, s')
           end
       | r => r
       end.

(** [for x in xs: acc = body x acc] *)
Fixpoint for_in {S X Acc} (xs : list X) (acc : Acc) (body : X → Acc → SE S Acc)
    : SE S Acc :=
  match xs with
  | [] => mret acc
  | x :: rest => acc' ← body x acc; for_in rest acc' body
  end.

(** *** The linter's methods *)

Definition call (c : Call) : SE Linter () := modify (λ l, l ++ [c]).

Definition load_plugin_modules (h : Host) (modnames : list string) : SE Linter () :=
  call (LoadPluginModules modnames);;
  match List.find (λ m, negb (importable h m)) modnames with
  | None => mret ()
  | Some m => raise (ImportError m)
  end.

Definition disable (h : Host) (msgid : string) : SE Linter () :=
  call (Disable msgid);;
  if known_msgid h msgid then mret () else raise (UnknownMessageError msgid).

Definition enable (h : Host) (msgid : string) : SE Linter () :=
  call (Enable msgid);;
  if known_msgid h msgid then mret () else raise (UnknownMessageError msgid).

Definition set_option (checker : Checker) (name : string) (value : pyval)
    : SE Linter () :=
  call (SetOption (checker_name checker) name value).

Definition config_from_file (h : Host) (config_file : pyval) : SE Linter bool :=
  call (ConfigFromFile config_file);;
  mret (plugins_loaded_by h config_file).

Definition load_command_line_configuration (h : Host) (paths : list string)
    : SE Linter (list string) :=
  call (LoadCommandLineConfiguration paths);;
  mret (command_line_args h paths).

Definition load_default_plugins : SE Linter () := call LoadDefaultPlugins.

(** ** The adapter: [PylintTool] *)

Record PylintTool : Type := mkPylintTool {
  _args : option (list string);
  _collector : option (list Message);   (* the messages the collector holds *)
  _linter : option Linter;
  _orig_sys_path : list string
}.

(** [PylintTool.__init__] *)
Definition __init__ : PylintTool :=
  {| _args := None; _collector := None; _linter := None; _orig_sys_path := [] |}.

(** The process: one adapter and the interpreter-wide [sys.path]. *)
Record Process : Type := mkProcess {
  self : PylintTool;
  sys_path : list string
}.

(** Attribute assignments on the adapter. *)
Definition set_args (v : option (list string)) (t : PylintTool) : PylintTool :=
  {| _args := v; _collector := _collector t; _linter := _linter t;
     _orig_sys_path := _orig_sys_path t |}.
Definition set_collector (v : option (list Message)) (t : PylintTool) : PylintTool :=
  {| _args := _args t; _collector := v; _linter := _linter t;
     _orig_sys_path := _orig_sys_path t |}.
Definition set_linter (v : option Linter) (t : PylintTool) : PylintTool :=
  {| _args := _args t; _collector := _collector t; _linter := v;
     _orig_sys_path := _orig_sys_path t |}.
Definition set_orig_sys_path (v : list string) (t : PylintTool) : PylintTool :=
  {| _args := _args t; _collector := _collector t; _linter := _linter t;
     _orig_sys_path := v |}.

(** The text of a path-like value. *)
Definition path_str (v : pyval) : string :=
  match v with PyStr s => s | _ => ""%string end.

Definition _error_message (filepath : string) (message : string) : Message :=
  let location := mkLocation filepath None None 0 0 in
  mkMessage "prospector" "config-problem" location message.

(** [try: linter.load_plugin_modules([plugin])
     except ImportError: errors.append(...)] *)
Definition load_plugin_or_report (h : Host) (filepath : string)
    (plugin : string) (errors : list Message) : SE Linter (list Message) :=
  try_except
    (load_plugin_modules h [plugin];; mret errors)
    (λ e, match e with
          | ImportError _ =>
              Some (mret (errors ++
                [_error_message filepath ("Could not load plugin " +:+ plugin)]))
          | _ => None
          end).

(** [try: linter.disable(msg_id) except UnknownMessageError: pass] *)
Definition disable_if_known (h : Host) (msg_id : string) (_ : ()) : SE Linter () :=
  try_except (disable h msg_id)
    (λ e, match e with
          | UnknownMessageError _ => Some (mret ())
          | _ => None
          end).

(** The first loop over the checkers: options named in the tool options. *)
Definition set_profile_options (opts : gmap string pyval) (checker : Checker)
    (_ : ()) : SE Linter () :=
  match options checker with
  | None => mret ()
  | Some declared =>
      for_in declared () (λ option0 _,
        match opts !! option0 with
        | Some value => set_option checker option0 value
        | None => mret ()
        end)
  end.

(** The second loop over the checkers: the maximum line length. *)
Definition set_max_line_length (max_line_length : option Z) (checker : Checker)
    (_ : ()) : SE Linter () :=
  match options checker with
  | None => mret ()
  | Some declared =>
      for_in declared () (λ option0 _,
        match max_line_length with
        | Some n =>
            if String.eqb option0 "max-line-length"
            then set_option checker "max-line-length" (PyInt n)
            else mret ()
        | None => mret ()
        end)
  end.

Definition _prospector_configure (h : Host) (prospector_config : ProspectorConfig)
    : SE Linter (list Message) :=
  let errors : list Message := [] in
  (if bool_decide ("django" ∈ libraries prospector_config)
   then load_plugin_modules h ["pylint_django"] else mret ());;
  (if bool_decide ("celery" ∈ libraries prospector_config)
   then load_plugin_modules h ["pylint_celery"] else mret ());;
  (if bool_decide ("flask" ∈ libraries prospector_config)
   then load_plugin_modules h ["pylint_flask"] else mret ());;
  let profile_path :=
    OsPath.join (workdir prospector_config) [profile_name prospector_config] in
  errors ← for_in (profile_load_plugins prospector_config) errors
             (load_plugin_or_report h profile_path);
  for_in (get_disabled_messages prospector_config) () (disable_if_known h);;
  let opts := tool_options prospector_config in
  checkers ← gets (get_checkers h);
  for_in checkers () (set_profile_options opts);;
  disable h "locally-disabled";;
  enable h "file-ignored";;
  enable h "suppressed-message";;
  disable h "deprecated-pragma";;
  let max_line_length := max_line_length prospector_config in
  checkers ← gets (get_checkers h);
  for_in checkers () (set_max_line_length max_line_length);;
  mret errors.

Definition _pylintrc_configure (h : Host) (pylintrc : pyval)
    : SE Linter (list Message) :=
  let errors : list Message := [] in
  are_plugins_loaded ← config_from_file h pylintrc;
  load_plugins ← gets (config_load_plugins h);
  match negb are_plugins_loaded, load_plugins with
  | true, Some plugins =>
      for_in plugins errors (load_plugin_or_report h (path_str pylintrc))
  | _, _ => mret errors
  end.

(** The search for a configuration file in [_get_pylint_configuration],
    from [pylint_options.get("config_file")] to the end of the loop over the
    conventional names. *)
Definition fallback_names : list string :=
  [".pylintrc"; "pylintrc"; "pyproject.toml"; "setup.cfg"]%string.

Fixpoint first_existing (h : Host) (workdir : string) (names : list string) : pyval :=
  match names with
  | [] => PyNone
  | possible :: rest =>
      let pylintrc_path := OsPath.join workdir [possible] in
      if path_exists h pylintrc_path then PyStr pylintrc_path
      else first_existing h workdir rest
  end.

Definition locate_pylintrc (h : Host) (prospector_config : ProspectorConfig)
    (pylint_options : gmap string pyval) : pyval :=
  let pylintrc := dict_get pylint_options "config_file" in
  let external_config := external_config_location prospector_config in
  let pylintrc := py_or (py_or pylintrc external_config) (find_pylintrc h) in
  if bool_decide (pylintrc = PyNone)
  then first_existing h (workdir prospector_config) fallback_names
  else pylintrc.

(** Computations on the adapter and the linter it is configuring. *)
Definition on_linter {A} (m : SE Linter A) : SE (PylintTool * Linter) A :=
  λ '(tool, linter), let '(r, linter') := m linter in (r, (tool, linter')).

Definition on_self {A} (m : SE PylintTool A) : SE (PylintTool * Linter) A :=
  λ '(tool, linter), let '(r, tool') := m tool in (r, (tool', linter)).

Definition _get_pylint_configuration (h : Host) (check_paths : list string)
    (prospector_config : ProspectorConfig) (pylint_options : gmap string pyval)
    : SE (PylintTool * Linter) (list Message * pyval) :=
  args ← on_linter (load_command_line_configuration h check_paths);
  on_self (modify (set_args (Some args)));;
  on_linter load_default_plugins;;
  config_messages ← on_linter (_prospector_configure h prospector_config);
  let configured_by := PyNone in
  if use_external_config prospector_config then
    let pylintrc := locate_pylintrc h prospector_config pylint_options in
    if bool_decide (pylintrc ≠ PyNone) then
      let configured_by := pylintrc in
      more ← on_linter (_pylintrc_configure h pylintrc);
      mret (config_messages ++ more, configured_by)
    else mret (config_messages, configured_by)
  else mret (config_messages, configured_by).

(** [ProspectorLinter(found_files)]: a linter on which nothing has been
    called yet. *)
Definition ProspectorLinter (found_files : FileFinder) : Linter := [].

(** Runs the part of [configure] that works on the local variable [linter];
    the linter object is only reachable afterwards through [self._linter]. *)
Definition with_linter {A} (linter : Linter) (m : SE (PylintTool * Linter) A)
    : SE Process A :=
  λ p, let '(r, (tool, _)) := m (self p, linter) in
       (r, {| self := tool; sys_path := sys_path p |}).

Definition _set_path_finder (h : Host) (extra_sys_path : list string)
    (pylint_options : gmap string pyval) : SE Process () :=
  modify (λ p, {| self := set_orig_sys_path (sys_path p) (self p);
                  sys_path := sys_path p |});;
  if negb (truthy (dict_get pylint_options "use_pylint_default_path_finder"))
  then
    modify (λ p, {| self := self p;
                    sys_path := set_iter h (set_of_list
                                  ((absolute h <$> extra_sys_path) ++ sys_path p)) |})
  else mret ().

Definition configure (h : Host) (prospector_config : ProspectorConfig)
    (found_files : FileFinder) : SE Process (pyval * list Message) :=
  let extra_sys_path := make_syspath found_files in
  let check_paths := python_packages found_files ++ python_modules found_files in
  let pylint_options := tool_options prospector_config in
  _set_path_finder h extra_sys_path pylint_options;;
  with_linter (ProspectorLinter found_files) (
    '(config_messages, configured_by) ←
      _get_pylint_configuration h check_paths prospector_config pylint_options;
    on_linter (disable h "similarities");;
    on_self (modify (set_collector (Some [])));;
    on_linter (call SetReporter);;
    jobs ← on_linter (gets (config_jobs h));
    (if (jobs =? 0)%Z then on_linter (call (SetJobs (_cpu_count h)))
     else mret ());;
    linter ← gets snd;
    on_self (modify (set_linter (Some linter)));;
    mret (configured_by, config_messages)).

(** [self._linter.check(self._args)]: the engine reports to the collector
    and may fail. *)
Definition linter_check (h : Host) : SE Process () :=
  λ p,
    match _linter (self p) with
    | None =>
        (Raise (AttributeError "'NoneType' object has no attribute 'check'"), p)
    | Some linter =>
        let args := _args (self p) in
        let '(outcome, path) := check h linter args (sys_path p) in
        let tool := set_linter (Some (linter ++ [Check args])) (self p) in
        match outcome with
        | Raise e => (Raise e, {| self := tool; sys_path := path |})
        | Ok reported =>
            (Ok (), {| self := set_collector
                                 ((λ held, held ++ reported) <$> _collector tool) tool;
                       sys_path := path |})
        end
    end.

(** [self._collector.get_messages()] *)
Definition get_messages : SE Process (list Message) :=
  λ p,
    match _collector (self p) with
    | None =>
        (Raise (AttributeError "'NoneType' object has no attribute 'get_messages'"), p)
    | Some messages => (Ok messages, p)
    end.

Definition run (h : Host) (found_files : FileFinder) : SE Process (list Message) :=
  linter_check h;;
  modify (λ p, {| self := self p; sys_path := _orig_sys_path (self p) |});;
  messages ← get_messages;
  lift_result (combine messages).

(** ** Auxiliary notions and sample data *)

(** The messages held in the groups of [by_loc]. *)
Definition grouped (by_loc : list (Location * list Message)) : list Message :=
  mjoin (snd <$> by_loc).

(** Two raw findings of pylint, as in the scenario of the specification. *)
Definition unused_import (loc : Location) (name : string) : Message :=
  mkMessage "pylint" W0614 loc
    ("Unused import(s) " +:+ name +:+ " from wildcard import").

Definition sample_location : Location := mkLocation "pkg/mod.py" None None 1 0.

(** A finding with the combinable code whose text the pattern does not match. *)
Definition odd_wildcard_message : Message :=
  mkMessage "pylint" W0614 sample_location "Wildcard import left names unused".

(** A finding with another code. *)
Definition other_message : Message :=
  mkMessage "pylint" "unused-import" sample_location "Unused import os".

(** A host for the examples: [order] is the iteration order of sets,
    [can_import] tells which plugin modules exist, [engine] is the outcome
    of running the checks. Relative paths are resolved against "/cwd"; the
    project has a "setup.cfg" and no other configuration file. *)
Definition sample_host (order : list string → list string)
    (can_import : string → bool)
    (engine : list string → result (list Message) * list string) : Host :=
  {| set_iter := order;
     absolute := λ p, OsPath.join "/cwd" [p];
     path_exists := λ p, String.eqb p "/proj/setup.cfg";
     find_pylintrc := PyNone;
     _cpu_count := 4;
     importable := can_import;
     known_msgid := λ m, negb (String.eqb m "removed-message");
     get_checkers := λ _, [mkChecker "format" (Some ["max-line-length"; "indent-string"]%string);
                           mkChecker "raw" None];
     command_line_args := id;
     plugins_loaded_by := λ _, false;
     config_load_plugins := λ _, None;
     config_jobs := λ _, 1%Z;
     check := λ _ _ path, engine path;
     file_msg_state := λ f m,
       if bool_decide (f = PyStr "/proj/setup.cfg") && String.eqb m "missing-docstring"
       then Some true else None |}.

Definition quiet_engine (path : list string) : result (list Message) * list string :=
  (Ok [], path).

Definition crashing_engine (path : list string) : result (list Message) * list string :=
  (Raise (EngineError "astroid crashed"), path).

Definition sample_config (libs : list string) : ProspectorConfig :=
  {| libraries := libs;
     workdir := "/proj";
     profile_name := "profile.yaml";
     profile_load_plugins := [];
     get_disabled_messages := ["missing-docstring"]%string;
     tool_options := ∅;
     max_line_length := None;
     use_external_config := true;
     external_config_location := PyNone |}.

Definition sample_files : FileFinder :=
  {| iter_package_paths := ["pkg"]%string;
     iter_module_paths := [];
     to_absolute_path := λ p, OsPath.join "/proj" [p];
     python_packages := ["/proj/pkg"]%string;
     python_modules := [];
     make_syspath := ["/proj"]%string |}.

Definition sample_process : Process :=
  {| self := __init__; sys_path := ["/usr/lib/python3"]%string |}.

(** A package [a] and a package [a/b/c] below it, [a/b] not being one. *)
Definition nested_packages : FileFinder :=
  {| iter_package_paths := ["a"; "a/b/c"]%string;
     iter_module_paths := [];
     to_absolute_path := λ p, OsPath.join "/proj" [p];
     python_packages := [];
     python_modules := [];
     make_syspath := [] |}.

(** The plugin loaded for each library hint, in the order in which
    [_prospector_configure] tests the hints. *)
Definition auto_plugins : list (string * string) :=
  [("django", "pylint_django"); ("celery", "pylint_celery");
   ("flask", "pylint_flask")]%string.

(** The plugins [_prospector_configure] loads for the hints of a project. *)
Definition hinted_plugins (prospector_config : ProspectorConfig) : list string :=
  snd <$> List.filter (λ hp, bool_decide (hp.1 ∈ libraries prospector_config))
            auto_plugins.

(** ** The state of a message and the discovery order *)

(** Modelled from the spec: what a history of calls leaves as the state of a
    message id. The engine's store of message states is pylint's; following
    the description of the configuration ("later layers may override",
    "last-applied-wins") the last call that sets the state of the id decides:
    [disable] and [enable] of an id the engine knows set it, reading a
    configuration file sets it when the file gives the id a state, and no
    other call changes it. [None] stands for the engine's default. *)
Definition apply_call (h : Host) (msgid : string) (state : option bool)
    (c : Call) : option bool :=
  match c with
  | Disable m =>
      if String.eqb m msgid && known_msgid h m then Some false else state
  | Enable m =>
      if String.eqb m msgid && known_msgid h m then Some true else state
  | ConfigFromFile config_file =>
      match file_msg_state h config_file msgid with
      | Some b => Some b
      | None => state
      end
  | _ => state
  end.

Definition msg_state (h : Host) (linter : Linter) (msgid : string) : option bool :=
  foldl (apply_call h msgid) None linter.

Definition is_load_plugin (c : Call) : Prop :=
  match c with LoadPluginModules _ => True | _ => False end.

(** The search for the configuration file in the words of the
    specification: the explicit path of the tool options, else the location
    supplied from outside, else what the engine's locator finds, else the
    first of the conventional names that exists in the working directory,
    else nothing. A path is given when the value is true in Python's sense,
    the locator has found a file when it does not answer [None]. *)
Definition discovery_order (h : Host) (prospector_config : ProspectorConfig)
    (pylint_options : gmap string pyval) : pyval :=
  let explicit := dict_get pylint_options "config_file" in
  let supplied := external_config_location prospector_config in
  let located := find_pylintrc h in
  if truthy explicit then explicit
  else if truthy supplied then supplied
  else if bool_decide (located ≠ PyNone) then located
  else
    let candidates :=
      (λ name, OsPath.join (workdir prospector_config) [name])
        <$> [".pylintrc"; "pylintrc"; "pyproject.toml"; "setup.cfg"]%string in
    match List.filter (path_exists h) candidates with
    | [] => PyNone
    | first :: _ => PyStr first
    end.

(** A computation on the linter only adds calls to its history. *)
Definition appends {A} (m : SE Linter A) : Prop :=
  ∀ l, ∃ added, (m l).2 = l ++ added.

(** A computation on the linter never raises. *)
Definition never_raises {A} (m : SE Linter A) : Prop :=
  ∀ l, returns (m l).1.

(** The notifications [_prospector_configure] switches on or off whatever
    the profile says. *)
Definition fixed_toggles : list string :=
  ["locally-disabled"; "file-ignored"; "suppressed-message";
   "deprecated-pragma"]%string.

(** The engine knows the fixed notifications and can import the plugins of
    the project's hints: what the profile layer needs in order to return. *)
Definition profile_layer_ready (h : Host) (prospector_config : ProspectorConfig)
    : Prop :=
  Forall (λ m, importable h m = true) (hinted_plugins prospector_config)
  ∧ Forall (λ m, known_msgid h m = true) fixed_toggles.

(** A project whose working directory holds no configuration file. *)
Definition bare_config : ProspectorConfig :=
  {| libraries := [];
     workdir := "/scratch";
     profile_name := "profile.yaml";
     profile_load_plugins := [];
     get_disabled_messages := [];
     tool_options := ∅;
     max_line_length := None;
     use_external_config := true;
     external_config_location := PyNone |}.

(** ** Notions used to state further properties *)

(** The text holds no newline. *)
Fixpoint no_newline (s : string) : bool :=
  match s with
  | EmptyString => true
  | String c s' => negb (Ascii.eqb c Re.newline) && no_newline s'
  end.

(** The fields that decide whether two locations are the same key. *)
Definition loc_key (loc : Location) : string * Z * Z :=
  (loc_path loc, loc_line loc, loc_character loc).

(** The messages of a list that have the combinable code and the key of
    [loc]. *)
Definition findings_at (loc : Location) (messages : list Message) : list Message :=
  List.filter (λ m, String.eqb (code m) W0614 && Location_eqb loc (location m))
    messages.

(** The text of a finding is matched by the pattern with its optional
    group taking part. *)
Definition plural_wording (m : Message) : Prop :=
  ∃ name, Re._UNUSED_WILDCARD_IMPORT_RE_match (message m)
          = Some (Re.MatchObj (Some "(s)"%string) name).

(** The message [_combine_w0614] makes for a group of [n] findings at
    [loc], given that every finding has the plural wording. *)
Definition merged_message (loc : Location) (n : nat) : Message :=
  mkMessage "pylint" W0614 loc
    ("Unused imports from wildcard import: "
       +:+ Str.join ", " (replicate n "(s)"%string)).

(** What [by_loc] holds once the messages [seen] have been distributed: one
    group for each key, made of the findings with that key in the order in
    which they came, under the location of the first of them. *)
Definition by_loc_inv (by_loc : list (Location * list Message))
    (seen : list Message) : Prop :=
  NoDup ((λ g, loc_key g.1) <$> by_loc)
  ∧ (∀ k ms, (k, ms) ∈ by_loc →
       ms = findings_at k seen
       ∧ ∃ first rest, ms = first :: rest ∧ location first = k)
  ∧ (∀ m, m ∈ seen → code m = W0614 →
       ∃ k ms, (k, ms) ∈ by_loc ∧ loc_key k = loc_key (location m)).

(** [os.path.join] of the two parts [os.path.split] cuts a path into: the
    form under which a package is recorded as a check path. *)
Definition package_path (p : string) : string :=
  OsPath.join (OsPath.split p).1 [(OsPath.split p).2].

(** The directory a package lies in, as [os.path.split] gives it. *)
Definition package_parent (p : string) : string := (OsPath.split p).1.

(** [os.path.join] of a sequence that is not empty. *)
Definition join_segments (segments : list string) : string :=
  match segments with
  | [] => ""%string
  | a :: p => OsPath.join a p
  end.

(** The directories above a module file: the joins of the leading segments
    of its directory name, shortest first. *)
Definition dir_prefixes (filepath : string) : list string :=
  let package := Str.split OsPath.sep (OsPath.dirname filepath) in
  (λ i, join_segments (take (i + 1) package)) <$> seq 0 (length package).

(** The check paths after the loop over the packages. *)
Definition package_roots (found_files : FileFinder) : result (list string) :=
  add_packages
    (sort_by_len ((λ p : string, let '(h, t) := OsPath.split p in [h; t])
                    <$> iter_package_paths found_files)) [].

(** A package, a module inside it and a module beside it. *)
Definition mixed_files : FileFinder :=
  {| iter_package_paths := ["pkg"]%string;
     iter_module_paths := ["pkg/sub.py"; "tool.py"]%string;
     to_absolute_path := λ p, OsPath.join "/proj" [p];
     python_packages := [];
     python_modules := [];
     make_syspath := [] |}.

(** The messages reporting the plugins of a list that cannot be imported,
    in the order of the list, located at [filepath]. *)
Definition plugin_reports (h : Host) (filepath : string) (plugins : list string)
    : list Message :=
  (λ plugin, _error_message filepath ("Could not load plugin " +:+ plugin))
    <$> List.filter (λ plugin, negb (importable h plugin)) plugins.

(** The calls the profile layer makes: loading plugins, enabling and
    disabling messages, setting options. *)
Definition profile_call (c : Call) : Prop :=
  match c with
  | LoadPluginModules _ | Disable _ | Enable _ | SetOption _ _ _ => True
  | _ => False
  end.

(** A computation on the linter only adds calls, all of the kind [P]. *)
Definition appends_only (P : Call → Prop) {A} (m : SE Linter A) : Prop :=
  ∀ l, ∃ added, (m l).2 = l ++ added ∧ Forall P added.

(** A message reporting a problem of the configuration found in [filepath]. *)
Definition config_problem_at (filepath : string) (m : Message) : Prop :=
  source m = "prospector"%string ∧ code m = "config-problem"%string
  ∧ loc_path (location m) = filepath
  ∧ loc_line (location m) = 0%Z ∧ loc_character (location m) = 0%Z.

(** * Properties *)

(** ** The error monad *)

Lemma raises_not_returns {A} (m : result A) : raises m → ¬ returns m.
Proof. intros [e ->] [a Ha]. discriminate. Qed.

Lemma result_cases {A} (m : result A) : returns m ∨ raises m.
Proof. destruct m; [left | right]; eexists; reflexivity. Qed.

(** ** The state monad *)

Lemma bind_unfold {S A B} (m : SE S A) (f : A → SE S B) s :
  (m ≫= f) s = match m s with
               | (Ok a, s') => f a s'
               | (Raise e, s') => (Raise e, s')
               end.
Proof. reflexivity. Qed.

Lemma bind_Ok {S A B} (m : SE S A) (f : A → SE S B) s a s1 :
  m s = (Ok a, s1) → (m ≫= f) s = f a s1.
Proof. intros H. by rewrite bind_unfold, H. Qed.

Lemma bind_Raise {S A B} (m : SE S A) (f : A → SE S B) s e s1 :
  m s = (Raise e, s1) → (m ≫= f) s = (Raise e, s1).
Proof. intros H. by rewrite bind_unfold, H. Qed.

Lemma bind_Ok_inv {S A B} (m : SE S A) (f : A → SE S B) s b s' :
  (m ≫= f) s = (Ok b, s') → ∃ a s1, m s = (Ok a, s1) ∧ f a s1 = (Ok b, s').
Proof.
  rewrite bind_unfold. destruct (m s) as [[a|e] s1]; [eauto | discriminate].
Qed.

Lemma ret_unfold {S A} (a : A) (s : S) : (mret a : SE S A) s = (Ok a, s).
Proof. reflexivity. Qed.

(** ** [sorted] *)

Section SortedFacts.
Context {A : Type} (ltb : A → A → bool).
Hypothesis ltb_asym : ∀ a b, ltb a b = true → ltb b a = false.

Lemma insert_sorted_perm (x : A) (l : list A) : insert_sorted ltb x l ≡ₚ x :: l.
Proof.
  induction l as [|y l IH]; simpl; [done|].
  destruct (ltb y x); [|done].
  rewrite IH. apply Permutation_swap.
Qed.

Lemma sorted_perm (l : list A) : sorted ltb l ≡ₚ l.
Proof.
  induction l as [|x l IH]; simpl; [done|].
  by rewrite insert_sorted_perm, IH.
Qed.

Lemma insert_sorted_head (x y : A) (l : list A) :
  ltb y x = false → insert_sorted ltb x (y :: l) = x :: y :: l.
Proof. simpl. by intros ->. Qed.

Lemma ascending_cons (x y : A) (l : list A) :
  ascending ltb (x :: y :: l) = negb (ltb y x) && ascending ltb (y :: l).
Proof. reflexivity. Qed.

Lemma insert_sorted_ascending (x : A) (l : list A) :
  ascending ltb l = true → ascending ltb (insert_sorted ltb x l) = true.
Proof.
  induction l as [|y l IH]; [done|].
  intros Hl. simpl insert_sorted. destruct (ltb y x) eqn:Hyx.
  - destruct l as [|z l].
    + simpl. by rewrite (ltb_asym _ _ Hyx).
    + rewrite ascending_cons in Hl. apply andb_true_iff in Hl as [Hzy Hl].
      specialize (IH Hl). revert IH. simpl insert_sorted.
      destruct (ltb z x) eqn:Hzx; intros IH.
      * rewrite ascending_cons, Hzy. exact IH.
      * rewrite ascending_cons, (ltb_asym _ _ Hyx). exact IH.
  - rewrite ascending_cons, Hyx. exact Hl.
Qed.

Lemma sorted_ascending (l : list A) : ascending ltb (sorted ltb l) = true.
Proof.
  induction l as [|x l IH]; [done|]. simpl. by apply insert_sorted_ascending.
Qed.

(** A list that is already in order is left as it is. *)
Lemma sorted_of_ascending (l : list A) : ascending ltb l = true → sorted ltb l = l.
Proof.
  induction l as [|x l IH]; [done|].
  intros Hl. simpl. destruct l as [|y l]; [done|].
  rewrite ascending_cons in Hl. apply andb_true_iff in Hl as [Hyx Hl].
  rewrite (IH Hl). apply insert_sorted_head. by apply negb_true_iff.
Qed.

Lemma sorted_idempotent (l : list A) : sorted ltb (sorted ltb l) = sorted ltb l.
Proof. apply sorted_of_ascending, sorted_ascending. Qed.

End SortedFacts.

(** ** The order on messages *)

Lemma String_ltb_asym (a b : string) : String.ltb a b = true → String.ltb b a = false.
Proof.
  unfold String.ltb. rewrite (String.compare_antisym a b).
  by destruct (String.compare b a).
Qed.

Lemma Location_eqb_refl (a : Location) : Location_eqb a a = true.
Proof.
  unfold Location_eqb. by rewrite String.eqb_refl, !Z.eqb_refl.
Qed.

Lemma Location_eqb_sym (a b : Location) : Location_eqb a b = Location_eqb b a.
Proof.
  unfold Location_eqb.
  by rewrite (String.eqb_sym (loc_path a)), (Z.eqb_sym (loc_line a)),
    (Z.eqb_sym (loc_character a)).
Qed.

Lemma Location_ltb_asym (a b : Location) :
  Location_ltb a b = true → Location_ltb b a = false.
Proof.
  unfold Location_ltb.
  rewrite (String.eqb_sym (loc_path b)), (Z.eqb_sym (loc_line b)).
  destruct (String.eqb (loc_path a) (loc_path b)); [|apply String_ltb_asym].
  destruct (Z.eqb (loc_line a) (loc_line b)); lia.
Qed.

Lemma Message_ltb_asym (a b : Message) :
  Message_ltb a b = true → Message_ltb b a = false.
Proof.
  unfold Message_ltb.
  rewrite (Location_eqb_sym (location b)), (String.eqb_sym (code b)),
    (String.eqb_sym (source b)).
  destruct (Location_eqb (location a) (location b)); [|apply Location_ltb_asym].
  destruct (String.eqb (code a) (code b)); [|apply String_ltb_asym].
  destruct (String.eqb (source a) (source b)); apply String_ltb_asym.
Qed.

(** ** The pattern and the paths on examples *)

Example pattern_with_optional_group :
  Re._UNUSED_WILDCARD_IMPORT_RE_match "Unused import(s) foo from wildcard import"
  = Some (Re.MatchObj (Some "(s)"%string) "foo").
Proof. reflexivity. Qed.

Example pattern_without_optional_group :
  Re._UNUSED_WILDCARD_IMPORT_RE_match "Unused import os from wildcard import"
  = Some (Re.MatchObj None "os").
Proof. reflexivity. Qed.

Example pattern_is_greedy :
  Re._UNUSED_WILDCARD_IMPORT_RE_match
    "Unused import a from wildcard import b from wildcard import of c"
  = Some (Re.MatchObj None "a from wildcard import b").
Proof. reflexivity. Qed.

Example pattern_needs_the_prefix :
  Re._UNUSED_WILDCARD_IMPORT_RE_match "Wildcard import os" = None.
Proof. reflexivity. Qed.

(** Without the optional "(s)" group 1 is [None], and joining the names
    raises. *)
Example combine_old_wording :
  combine [mkMessage "pylint" W0614 sample_location
             "Unused import os from wildcard import"]
  = Raise (TypeError "sequence item: expected str instance, NoneType found").
Proof. reflexivity. Qed.

Example os_path_split_examples :
  OsPath.split "a/b/c" = ("a/b", "c")%string
  ∧ OsPath.split "a" = ("", "a")%string
  ∧ OsPath.split "/a" = ("/", "a")%string
  ∧ OsPath.split "a//b/" = ("a//b", "")%string.
Proof. repeat split; reflexivity. Qed.

Example os_path_join_examples :
  OsPath.join "" ["a"]%string = "a"%string
  ∧ OsPath.join "a/b" ["c"]%string = "a/b/c"%string
  ∧ OsPath.join "a/" ["/c"; "d"]%string = "/c/d"%string.
Proof. repeat split; reflexivity. Qed.

(** ** Combining messages *)

Lemma by_loc_append_grouped loc m by_loc x :
  x ∈ grouped (by_loc_append loc m by_loc) ↔ x ∈ grouped by_loc ∨ x = m.
Proof.
  unfold grouped. induction by_loc as [|[k ms] rest IH]; simpl.
  - set_solver.
  - destruct (Location_eqb k loc); simpl; set_solver.
Qed.

Lemma partition_w0614_spec messages by_loc out :
  ∀ by_loc' out', partition_w0614 messages by_loc out = (by_loc', out') →
    (∀ x, x ∈ grouped by_loc' ↔
          x ∈ grouped by_loc ∨ (x ∈ messages ∧ code x = W0614))
    ∧ out' = out ++ filter (λ m, code m ≠ W0614) messages.
Proof.
  revert by_loc out.
  induction messages as [|m rest IH]; intros by_loc out by_loc' out'; simpl.
  - intros [= <- <-]. split; [set_solver|]. by rewrite app_nil_r.
  - destruct (String.eqb (code m) W0614) eqn:Hc.
    + apply String.eqb_eq in Hc. intros H. apply IH in H as [Hg ->].
      split.
      * intros x. rewrite Hg, by_loc_append_grouped. set_solver.
      * by rewrite filter_cons_False by (intros ?; contradiction).
    + apply String.eqb_neq in Hc. intros H. apply IH in H as [Hg ->].
      split.
      * intros x. rewrite Hg. set_solver.
      * by rewrite filter_cons_True, <- app_assoc by done.
Qed.

Lemma grouped_elem by_loc x :
  x ∈ grouped by_loc → ∃ loc ms, (loc, ms) ∈ by_loc ∧ x ∈ ms.
Proof.
  unfold grouped. intros H. apply list_elem_of_join in H as (ms & Hx & Hms).
  apply list_elem_of_fmap in Hms as ([loc ms'] & -> & Hin). eauto.
Qed.

Lemma collect_names_raises message_list names x :
  x ∈ message_list → Re._UNUSED_WILDCARD_IMPORT_RE_match (message x) = None →
  raises (collect_names message_list names).
Proof.
  revert names. induction message_list as [|m rest IH]; intros names Hx Hm.
  - by apply elem_of_nil in Hx.
  - simpl. unfold extract_name at 1.
    destruct (Re._UNUSED_WILDCARD_IMPORT_RE_match (message m)) as [mo|] eqn:Hmo.
    + simpl. apply IH; [|done].
      apply elem_of_cons in Hx as [->|Hx]; [congruence | done].
    + eexists. reflexivity.
Qed.

Lemma synthesize_raises groups out x :
  x ∈ grouped groups → Re._UNUSED_WILDCARD_IMPORT_RE_match (message x) = None →
  raises (synthesize groups out).
Proof.
  revert out. induction groups as [|[loc ms] rest IH]; intros out Hx Hm.
  - by apply elem_of_nil in Hx.
  - simpl. destruct (collect_names ms []) as [names|e] eqn:Hn; [|by eexists].
    simpl. destruct (join_names names) as [joined|e]; [|by eexists].
    simpl. apply IH; [|done].
    unfold grouped in Hx. simpl in Hx. apply elem_of_app in Hx as [Hx|Hx]; [|done].
    destruct (collect_names_raises ms [] x Hx Hm) as [e He]. congruence.
Qed.

(** A message with the combinable code and a text the pattern does not match
    makes [_combine_w0614] raise. *)
Lemma _combine_w0614_raises messages x :
  x ∈ messages → code x = W0614 →
  Re._UNUSED_WILDCARD_IMPORT_RE_match (message x) = None →
  raises (_combine_w0614 messages).
Proof.
  intros Hx Hc Hm. unfold _combine_w0614.
  destruct (partition_w0614 messages [] []) as [by_loc out] eqn:Hp.
  apply partition_w0614_spec in Hp as [Hg _].
  apply synthesize_raises with x; [|done]. apply Hg. by right.
Qed.

Lemma combine_raises messages x :
  x ∈ messages → code x = W0614 →
  Re._UNUSED_WILDCARD_IMPORT_RE_match (message x) = None →
  raises (combine messages).
Proof.
  intros Hx Hc Hm. destruct (_combine_w0614_raises messages x Hx Hc Hm) as [e He].
  exists e. unfold combine. by rewrite He.
Qed.

(** Without a combinable message the first loop passes everything through. *)
Lemma partition_w0614_passthrough messages by_loc out :
  Forall (λ m, code m ≠ W0614) messages →
  partition_w0614 messages by_loc out = (by_loc, out ++ messages).
Proof.
  intros Hall. revert out.
  induction Hall as [|m l Hm Hl IH]; intros out; simpl.
  - by rewrite app_nil_r.
  - apply String.eqb_neq in Hm. rewrite Hm, IH. by rewrite <- app_assoc.
Qed.

Lemma _combine_w0614_passthrough messages :
  Forall (λ m, code m ≠ W0614) messages → _combine_w0614 messages = Ok messages.
Proof.
  intros Hall. unfold _combine_w0614.
  by rewrite partition_w0614_passthrough.
Qed.

Lemma combine_passthrough messages :
  Forall (λ m, code m ≠ W0614) messages →
  combine messages = Ok (sorted Message_ltb messages).
Proof.
  intros Hall. unfold combine. by rewrite _combine_w0614_passthrough.
Qed.

(** Every group leaves a synthesized message, with the combinable code, in
    the output. *)
Lemma synthesize_out groups out res :
  synthesize groups out = Ok res →
  (∀ x, x ∈ out → x ∈ res)
  ∧ ∀ loc ms, (loc, ms) ∈ groups →
      ∃ joined, mkMessage "pylint" W0614 loc
                  ("Unused imports from wildcard import: " +:+ joined) ∈ res.
Proof.
  revert out. induction groups as [|[loc ms] rest IH]; intros out; simpl.
  - intros [= <-]. split; [done|]. intros ?? H. by apply elem_of_nil in H.
  - destruct (collect_names ms []) as [names|e]; [|done]. simpl.
    destruct (join_names names) as [joined|e]; [|done]. simpl.
    intros H. apply IH in H as [Hout Hrest]. split.
    + intros x Hx. apply Hout. set_solver.
    + intros loc' ms' Hin. apply elem_of_cons in Hin as [[= -> ->]|Hin].
      * exists joined. apply Hout. set_solver.
      * by apply Hrest with ms'.
Qed.

(** The text of a synthesized message is not matched by the pattern. *)
Lemma synthesized_text_no_match joined :
  Re._UNUSED_WILDCARD_IMPORT_RE_match
    ("Unused imports from wildcard import: " +:+ joined) = None.
Proof. reflexivity. Qed.

(** C1, counterexample: [combine] applied to its own output is not a no-op.
    One finding with the combinable code is merged into a synthesized
    message that still carries the code "unused-wildcard-import"; on the
    second pass the pattern does not match its text and [combine] raises. *)
Lemma combine_not_idempotent :
  combine [unused_import sample_location "foo"]
    = Ok [mkMessage "pylint" W0614 sample_location
            "Unused imports from wildcard import: (s)"]
  ∧ (combine [unused_import sample_location "foo"] ≫= combine)
    ≠ combine [unused_import sample_location "foo"].
Proof. split; [reflexivity | vm_compute; discriminate]. Qed.

(** C1, amended: when [combine] returns on a list L, a second application
    returns the same list if L holds no message with the code
    "unused-wildcard-import", and raises if L holds one (the synthesized
    message keeps the combinable code and its text is not matched). *)
Theorem combine_twice (L out : list Message) :
  combine L = Ok out →
  (Forall (λ m, code m ≠ W0614) L → combine out = Ok out)
  ∧ (Exists (λ m, code m = W0614) L → raises (combine out)).
Proof.
  intros HL. split.
  - intros Hall. rewrite combine_passthrough in HL by done.
    injection HL as <-.
    rewrite combine_passthrough.
    + f_equal. apply sorted_idempotent, Message_ltb_asym.
    + by rewrite (sorted_perm Message_ltb L).
  - intros Hex. apply Exists_exists in Hex as (x & Hx & Hc).
    unfold combine in HL.
    destruct (_combine_w0614 L) as [res|e] eqn:Hres; [|done].
    simpl in HL. injection HL as <-.
    unfold _combine_w0614 in Hres.
    destruct (partition_w0614 L [] []) as [by_loc passed] eqn:Hp.
    apply partition_w0614_spec in Hp as [Hg _].
    destruct (grouped_elem by_loc x) as (loc & ms & Hin & _).
    { apply Hg. by right. }
    apply synthesize_out in Hres as [_ Hsyn].
    destruct (Hsyn loc ms Hin) as [joined Hj].
    eapply combine_raises.
    + rewrite (sorted_perm Message_ltb res). exact Hj.
    + reflexivity.
    + apply synthesized_text_no_match.
Qed.

Lemma combine_twice_witness :
  raises (combine [mkMessage "pylint" W0614 sample_location
                     "Unused imports from wildcard import: (s)"])
  ∧ combine [other_message] = Ok [other_message].
Proof.
  split.
  - apply (combine_twice [unused_import sample_location "foo"]);
      [reflexivity | constructor; reflexivity].
  - apply (combine_twice [other_message]); [reflexivity|].
    constructor; [|constructor]. vm_compute. discriminate.
Defined.

(** C2: on the two findings of the scenario [combine] returns one message
    at their location, but its text lists the optional group "(s)" once per
    finding instead of the names foo and bar: [group(1)] is the optional
    group of the pattern, the names are in group 2. *)
Theorem combine_two_wildcard_imports (loc : Location) :
  combine [unused_import loc "foo"; unused_import loc "bar"]
    = Ok [mkMessage "pylint" W0614 loc
            "Unused imports from wildcard import: (s), (s)"]
  ∧ Re._UNUSED_WILDCARD_IMPORT_RE_match "Unused import(s) foo from wildcard import"
    = Some (Re.MatchObj (Some "(s)") "foo")
  ∧ Re._UNUSED_WILDCARD_IMPORT_RE_match "Unused import(s) bar from wildcard import"
    = Some (Re.MatchObj (Some "(s)") "bar").
Proof.
  split; [|split; reflexivity].
  unfold combine, _combine_w0614. simpl partition_w0614.
  rewrite Location_eqb_refl. reflexivity.
Qed.

(** C10: a message with the code "unused-wildcard-import" whose text the
    pattern does not match makes [combine] raise, whatever else the list
    holds. *)
Theorem combine_raises_on_unmatched_text (L : list Message) (m : Message) :
  m ∈ L → code m = W0614 →
  Re._UNUSED_WILDCARD_IMPORT_RE_match (message m) = None →
  raises (combine L).
Proof. apply combine_raises. Qed.

Lemma combine_raises_on_unmatched_text_witness :
  raises (combine [other_message; odd_wildcard_message]).
Proof.
  apply (combine_raises_on_unmatched_text _ odd_wildcard_message).
  - apply elem_of_cons. right. apply elem_of_cons. by left.
  - reflexivity.
  - reflexivity.
Defined.

(** ** Scan roots *)

(** C3: for the packages [a] and [a/b/c] both are kept as check paths
    although [a] is an ancestor of [a/b/c]. [os.path.split] cuts a path into
    the pair (head, tail), so every tuple has length two, the sort by length
    changes nothing, and the loop over the prefixes only looks up the direct
    parent [a/b]. *)
Theorem check_paths_keep_nested_package :
  check_paths_set nested_packages = Ok ["a"; "a/b/c"]%string
  ∧ _get_pylint_check_paths id nested_packages = Ok ["/proj/a"; "/proj/a/b/c"]%string
  ∧ is_ancestor "a" "a/b/c" = true
  ∧ OsPath.split "a/b/c" = ("a/b", "c")%string.
Proof. repeat split; reflexivity. Qed.


(** ** The search path *)

(** When the engine returns, [run] puts back the list saved by
    [_set_path_finder], whatever the engine did to [sys.path]. *)
Lemma run_restores_after_success h ff p linter reported path :
  _linter (self p) = Some linter →
  check h linter (_args (self p)) (sys_path p) = (Ok reported, path) →
  sys_path (snd (run h ff p)) = _orig_sys_path (self p).
Proof.
  intros Hl Hc. unfold run. rewrite bind_unfold.
  unfold linter_check at 1. rewrite Hl, Hc. rewrite bind_unfold. cbn.
  destruct (_collector (self p)); reflexivity.
Qed.

(** When the engine raises, [run] ends there: [sys.path] stays as the
    engine left it, the assignment that restores it is not reached. *)
Lemma run_stops_at_engine_failure h ff p linter e path :
  _linter (self p) = Some linter →
  check h linter (_args (self p)) (sys_path p) = (Raise e, path) →
  fst (run h ff p) = Raise e ∧ sys_path (snd (run h ff p)) = path.
Proof.
  intros Hl Hc. unfold run. rewrite bind_unfold.
  unfold linter_check. rewrite Hl, Hc. split; reflexivity.
Qed.

(** C4: a run in which the engine raises. [configure] replaces the search
    path ["/usr/lib/python3"] by one that also holds "/proj"; [run] then
    propagates the engine's exception and leaves [sys.path] as modified,
    although the original list is still held in [_orig_sys_path]. *)
Theorem run_engine_failure_leaves_search_path :
  let h := sample_host id (λ _, true) crashing_engine in
  let configured := configure h (sample_config []) sample_files sample_process in
  let finished := run h sample_files (snd configured) in
  returns (fst configured)
  ∧ fst finished = Raise (EngineError "astroid crashed")
  ∧ sys_path sample_process = ["/usr/lib/python3"]%string
  ∧ sys_path (snd finished) = ["/proj"; "/usr/lib/python3"]%string
  ∧ _orig_sys_path (self (snd finished)) = ["/usr/lib/python3"]%string.
Proof.
  cbv zeta. repeat split; try reflexivity.
  eexists. vm_compute. reflexivity.
Qed.

(** What [_set_path_finder] does guarantee: the new search path holds the
    target paths and the former entries, each once, in the order in which
    the host iterates over the set. *)
Lemma set_add_elem x y s : x ∈ set_add y s ↔ x = y ∨ x ∈ s.
Proof. unfold set_add. case_bool_decide; set_solver. Qed.

Lemma set_of_list_elem l x : x ∈ set_of_list l ↔ x ∈ l.
Proof.
  unfold set_of_list.
  assert (∀ acc, x ∈ foldl (flip set_add) acc l ↔ x ∈ acc ∨ x ∈ l) as H.
  { induction l as [|y l IH]; intros acc; simpl; [set_solver|].
    rewrite IH. unfold flip. rewrite set_add_elem. set_solver. }
  rewrite H. set_solver.
Qed.

Lemma _set_path_finder_elements h extra opts p x :
  (∀ l, set_iter h l ≡ₚ l) →
  truthy (dict_get opts "use_pylint_default_path_finder") = false →
  x ∈ sys_path (snd (_set_path_finder h extra opts p))
  ↔ x ∈ (absolute h <$> extra) ∨ x ∈ sys_path p.
Proof.
  intros Hperm Hopt. unfold _set_path_finder. rewrite bind_unfold. cbn.
  rewrite Hopt. cbn. rewrite Hperm, set_of_list_elem. apply elem_of_app.
Qed.

(** C5: with a host that iterates over a set in the reverse of the insertion
    order (an arrangement of the same elements, as every iteration order
    is), the target path "/proj" ends up after the entry that was on the
    search path before: the list is rebuilt from a set and its order is not
    that of the concatenation. *)
Theorem path_finder_does_not_prepend :
  let h := sample_host reverse (λ _, true) quiet_engine in
  (∀ l, set_iter h l ≡ₚ l)
  ∧ sys_path (snd (_set_path_finder h ["/proj"]%string ∅ sample_process))
    = ["/usr/lib/python3"; "/proj"]%string.
Proof.
  cbv zeta. split; [|reflexivity].
  intros l. apply reverse_Permutation.
Qed.

(** ** Ecosystem plugins *)

Lemma on_linter_unfold {A} (m : SE Linter A) tool linter :
  on_linter m (tool, linter) = ((m linter).1, (tool, (m linter).2)).
Proof. unfold on_linter. by destruct (m linter). Qed.

Lemma load_plugin_modules_unfold h modname l :
  load_plugin_modules h [modname] l
  = (if importable h modname then Ok () else Raise (ImportError modname),
     l ++ [LoadPluginModules [modname]]).
Proof.
  unfold load_plugin_modules. rewrite bind_unfold. cbn.
  by destruct (importable h modname).
Qed.

Lemma _prospector_configure_auto_plugin_failure h cfg l m :
  List.find (λ m, negb (importable h m)) (hinted_plugins cfg) = Some m →
  (_prospector_configure h cfg l).1 = Raise (ImportError m).
Proof.
  unfold hinted_plugins, _prospector_configure. cbn.
  repeat case_bool_decide; cbn;
    destruct (importable h "pylint_django") eqn:Hdjango,
      (importable h "pylint_celery") eqn:Hcelery,
      (importable h "pylint_flask") eqn:Hflask;
    cbn; intros Hm; try discriminate;
    injection Hm as <-;
    repeat (rewrite bind_unfold;
            first [ rewrite load_plugin_modules_unfold, ?Hdjango, ?Hcelery, ?Hflask
                  | rewrite ret_unfold ];
            cbv beta iota);
    reflexivity.
Qed.

(** ** The layers of the configuration *)

Lemma on_self_modify_unfold (f : PylintTool → PylintTool) tool (linter : Linter) :
  on_self (modify f) (tool, linter) = (Ok (), (f tool, linter)).
Proof. reflexivity. Qed.

(** [_get_pylint_configuration] spelled out: the command line and the
    default plugins, then the profile layer, then the configuration file if
    one is to be used and is found. *)
Lemma _get_pylint_configuration_unfold h check_paths cfg opts tool linter :
  _get_pylint_configuration h check_paths cfg opts (tool, linter) =
    let linter1 :=
      (linter ++ [LoadCommandLineConfiguration check_paths]) ++ [LoadDefaultPlugins] in
    let tool1 := set_args (Some (command_line_args h check_paths)) tool in
    match _prospector_configure h cfg linter1 with
    | (Raise e, linter2) => (Raise e, (tool1, linter2))
    | (Ok config_messages, linter2) =>
        if use_external_config cfg then
          let pylintrc := locate_pylintrc h cfg opts in
          if bool_decide (pylintrc ≠ PyNone) then
            match _pylintrc_configure h pylintrc linter2 with
            | (Ok more, linter3) =>
                (Ok (config_messages ++ more, pylintrc), (tool1, linter3))
            | (Raise e, linter3) => (Raise e, (tool1, linter3))
            end
          else (Ok (config_messages, PyNone), (tool1, linter2))
        else (Ok (config_messages, PyNone), (tool1, linter2))
    end.
Proof.
  unfold _get_pylint_configuration.
  generalize (_prospector_configure h cfg) as profile_layer.
  generalize (_pylintrc_configure h (locate_pylintrc h cfg opts)) as file_layer.
  intros file_layer profile_layer.
  unfold on_linter, on_self, load_command_line_configuration,
    load_default_plugins, call, modify, mbind, SE_bind, mret, SE_ret.
  cbn.
  destruct (profile_layer _) as [[msgs|e] linter2]; cbn; [|done].
  destruct (use_external_config cfg); [|done].
  case_bool_decide; [|done]. cbn.
  by destruct (file_layer linter2) as [[more|e] linter3].
Qed.

(** The search path [_set_path_finder] installs. *)
Lemma _set_path_finder_unfold h extra opts p :
  _set_path_finder h extra opts p =
    (Ok (),
     {| self := set_orig_sys_path (sys_path p) (self p);
        sys_path :=
          if truthy (dict_get opts "use_pylint_default_path_finder")
          then sys_path p
          else set_iter h (set_of_list ((absolute h <$> extra) ++ sys_path p)) |}).
Proof.
  unfold _set_path_finder. rewrite bind_unfold. cbn.
  by destruct (truthy _).
Qed.

(** [configure] spelled out. *)
Lemma configure_unfold h cfg ff p :
  configure h cfg ff p =
    let p1 := (_set_path_finder h (make_syspath ff) (tool_options cfg) p).2 in
    match _get_pylint_configuration h (python_packages ff ++ python_modules ff)
            cfg (tool_options cfg) (self p1, ProspectorLinter ff) with
    | (Raise e, (tool, _)) => (Raise e, {| self := tool; sys_path := sys_path p1 |})
    | (Ok (config_messages, configured_by), (tool, linter)) =>
        if known_msgid h "similarities" then
          let linter1 := (linter ++ [Disable "similarities"]) ++ [SetReporter] in
          let linter2 :=
            if (config_jobs h linter1 =? 0)%Z
            then linter1 ++ [SetJobs (_cpu_count h)] else linter1 in
          (Ok (configured_by, config_messages),
           {| self := set_linter (Some linter2) (set_collector (Some []) tool);
              sys_path := sys_path p1 |})
        else
          (Raise (UnknownMessageError "similarities"),
           {| self := tool; sys_path := sys_path p1 |})
    end.
Proof.
  unfold configure. rewrite bind_unfold, _set_path_finder_unfold.
  cbv beta iota zeta. cbn [snd fst self sys_path].
  unfold with_linter. cbn [self sys_path].
  rewrite bind_unfold.
  destruct (_get_pylint_configuration _ _ _ _ _) as [[[msgs cb]|e] [tool linter]];
    [|done].
  unfold on_linter, on_self, disable, call, modify, gets, raise,
    mbind, SE_bind, mret, SE_ret.
  cbn.
  destruct (known_msgid h "similarities"); [|done]. cbn.
  by destruct (config_jobs h _ =? 0)%Z.
Qed.

(** C6, counterexample: the project names django and the plugin
    "pylint_django" cannot be imported; [configure] raises the import error
    to its caller. *)
Lemma auto_plugin_failure_not_swallowed :
  (configure (sample_host id (λ m, negb (String.eqb m "pylint_django")) quiet_engine)
     (sample_config ["django"]%string) sample_files sample_process).1
  = Raise (ImportError "pylint_django").
Proof. reflexivity. Qed.

(** C6, amended: the plugins for the hints django, celery and flask are
    loaded without a handler. If one of the hinted plugins cannot be
    imported, [configure] raises the import error of the first such plugin
    to its caller: configuration is aborted and no message is returned. *)
Theorem auto_plugin_failure_propagates h cfg ff p m :
  List.find (λ m, negb (importable h m)) (hinted_plugins cfg) = Some m →
  (configure h cfg ff p).1 = Raise (ImportError m).
Proof.
  intros Hm. rewrite configure_unfold. cbv zeta.
  destruct (_set_path_finder _ _ _ _).2 as [tool path]. cbn [self sys_path].
  rewrite _get_pylint_configuration_unfold. cbv zeta.
  pose proof (_prospector_configure_auto_plugin_failure h cfg
    ((ProspectorLinter ff
      ++ [LoadCommandLineConfiguration (python_packages ff ++ python_modules ff)])
      ++ [LoadDefaultPlugins]) m Hm) as Hfail.
  destruct (_prospector_configure h cfg _) as [[msgs|e] linter2];
    cbn in Hfail; [discriminate|].
  by simplify_eq.
Qed.

Lemma auto_plugin_failure_propagates_witness :
  (configure (sample_host id (λ m, negb (String.eqb m "pylint_flask")) quiet_engine)
     (sample_config ["flask"; "django"]%string) sample_files sample_process).1
  = Raise (ImportError "pylint_flask").
Proof. apply auto_plugin_failure_propagates. reflexivity. Defined.

(** ** The life cycle of the adapter *)

(** C8, counterexample: a second [configure] on the same adapter returns as
    the first did, it does not fail. *)
Lemma configure_twice_returns :
  let h := sample_host id (λ _, true) quiet_engine in
  let configure_once := configure h (sample_config []) sample_files in
  (configure_once sample_process).1 = Ok (PyStr "/proj/setup.cfg", [])
  ∧ ((configure_once ≫= λ _, configure_once) sample_process).1
    = Ok (PyStr "/proj/setup.cfg", []).
Proof. split; reflexivity. Qed.

(** The outcome of [configure] does not depend on the state of the adapter
    or of the search path. *)
Lemma configure_outcome_independent h cfg ff p1 p2 :
  (configure h cfg ff p1).1 = (configure h cfg ff p2).1.
Proof.
  rewrite !configure_unfold. cbv zeta.
  destruct (_set_path_finder _ _ _ p1).2 as [tool1 path1].
  destruct (_set_path_finder _ _ _ p2).2 as [tool2 path2].
  cbn [self sys_path].
  rewrite !_get_pylint_configuration_unfold. cbv zeta.
  destruct (_prospector_configure h cfg _) as [[msgs|e] linter2]; [|done].
  destruct (use_external_config cfg).
  - case_bool_decide.
    + destruct (_pylintrc_configure h _ linter2) as [[more|e] linter3]; [|done].
      by destruct (known_msgid h "similarities").
    + by destruct (known_msgid h "similarities").
  - by destruct (known_msgid h "similarities").
Qed.

(** C8, amended: the adapter keeps no record of its life cycle. [configure]
    gives the same outcome whatever the state of the adapter, so a second
    call on one instance configures again and returns what the first call
    returned; [run] on an adapter that was never configured fails at its
    first statement with the [AttributeError] of the unset linter, leaving
    the process as it was. *)
Theorem configure_and_run_keep_no_state h cfg ff :
  (∀ p1 p2, (configure h cfg ff p1).1 = (configure h cfg ff p2).1)
  ∧ (∀ p, ((configure h cfg ff ≫= λ _, configure h cfg ff) p).1
          = (configure h cfg ff p).1)
  ∧ (∀ path,
      run h ff {| self := __init__; sys_path := path |}
      = (Raise (AttributeError "'NoneType' object has no attribute 'check'"),
         {| self := __init__; sys_path := path |})).
Proof.
  split; [|split].
  - apply configure_outcome_independent.
  - intros p. rewrite bind_unfold.
    destruct (configure h cfg ff p) as [[r|e] p'] eqn:Hfirst; [|done].
    rewrite (configure_outcome_independent h cfg ff p' p). by rewrite Hfirst.
  - reflexivity.
Qed.

(** ** Histories of calls *)

Section Appends.
Context {A B : Type}.

Lemma appends_ret (a : A) : appends (mret a).
Proof. intros l. exists []. by rewrite app_nil_r. Qed.

Lemma appends_raise (e : exn) : appends (raise e : SE Linter A).
Proof. intros l. exists []. by rewrite app_nil_r. Qed.

Lemma appends_gets (f : Linter → A) : appends (gets f).
Proof. intros l. exists []. by rewrite app_nil_r. Qed.

Lemma appends_bind (m : SE Linter A) (f : A → SE Linter B) :
  appends m → (∀ a, appends (f a)) → appends (m ≫= f).
Proof.
  intros Hm Hf l. rewrite bind_unfold. destruct (Hm l) as [added1 H1].
  destruct (m l) as [[a|e] l1]; cbn in H1; subst l1.
  - destruct (Hf a (l ++ added1)) as [added2 H2].
    exists (added1 ++ added2). by rewrite H2, app_assoc.
  - by exists added1.
Qed.

Lemma appends_try_except (m : SE Linter A) (catch : exn → option (SE Linter A)) :
  appends m → (∀ e handler, catch e = Some handler → appends handler) →
  appends (try_except m catch).
Proof.
  intros Hm Hc l. unfold try_except. destruct (Hm l) as [added1 H1].
  destruct (m l) as [[a|e] l1]; cbn in H1; subst l1.
  - by exists added1.
  - destruct (catch e) as [handler|] eqn:He.
    + destruct (Hc e handler He (l ++ added1)) as [added2 H2].
      exists (added1 ++ added2). by rewrite H2, app_assoc.
    + by exists added1.
Qed.

End Appends.

Lemma appends_for_in {A X} (xs : list X) (acc : A) (body : X → A → SE Linter A) :
  (∀ x a, appends (body x a)) → appends (for_in xs acc body).
Proof.
  intros Hbody. revert acc. induction xs as [|x xs IH]; intros acc; simpl.
  - apply appends_ret.
  - apply appends_bind; [apply Hbody | apply IH].
Qed.


Lemma appends_call c : appends (call c).
Proof. intros l. by exists [c]. Qed.

Lemma appends_Ok {A} (m : SE Linter A) l a l' :
  appends m → m l = (Ok a, l') → ∃ added, l' = l ++ added.
Proof. intros Hm H. destruct (Hm l) as [added Ha]. rewrite H in Ha. eauto. Qed.

Create HintDb appends discriminated.
#[local] Hint Resolve appends_ret appends_raise appends_gets appends_call : appends.
#[local] Hint Extern 2 (appends (_ ≫= _)) =>
  apply appends_bind; [|intros] : appends.
#[local] Hint Extern 2 (appends (for_in _ _ _)) =>
  apply appends_for_in; intros : appends.
#[local] Hint Extern 2 (appends (try_except _ _)) =>
  apply appends_try_except; [|intros [] ? ?; simplify_eq] : appends.
#[local] Hint Extern 3 (appends (if ?b then _ else _)) => destruct b : appends.
#[local] Hint Extern 3 (appends (match ?x with _ => _ end)) => destruct x : appends.

Lemma appends_load_plugin_modules h modnames : appends (load_plugin_modules h modnames).
Proof. unfold load_plugin_modules. auto with appends. Qed.

Lemma appends_disable h msgid : appends (disable h msgid).
Proof. unfold disable. auto with appends. Qed.

Lemma appends_enable h msgid : appends (enable h msgid).
Proof. unfold enable. auto with appends. Qed.

Lemma appends_set_option checker name value : appends (set_option checker name value).
Proof. unfold set_option. auto with appends. Qed.

#[local] Hint Resolve appends_load_plugin_modules appends_disable appends_enable
  appends_set_option : appends.

Lemma appends_load_plugin_or_report h filepath plugin errors :
  appends (load_plugin_or_report h filepath plugin errors).
Proof. unfold load_plugin_or_report. auto 10 with appends. Qed.

Lemma appends_set_profile_options opts checker u :
  appends (set_profile_options opts checker u).
Proof. unfold set_profile_options. auto 10 with appends. Qed.

Lemma appends_set_max_line_length n checker u :
  appends (set_max_line_length n checker u).
Proof. unfold set_max_line_length. auto 10 with appends. Qed.

#[local] Hint Resolve appends_load_plugin_or_report appends_set_profile_options
  appends_set_max_line_length : appends.

(** ** Computations that return *)

Lemma never_raises_ret {A} (a : A) : never_raises (mret a).
Proof. intros l. by exists a. Qed.

Lemma never_raises_gets {A} (f : Linter → A) : never_raises (gets f).
Proof. intros l. by eexists. Qed.

Lemma never_raises_call c : never_raises (call c).
Proof. intros l. by eexists. Qed.

Lemma never_raises_bind {A B} (m : SE Linter A) (f : A → SE Linter B) :
  never_raises m → (∀ a, never_raises (f a)) → never_raises (m ≫= f).
Proof.
  intros Hm Hf l. rewrite bind_unfold. destruct (Hm l) as [a Ha].
  destruct (m l) as [[a'|e] l1]; cbn in Ha; [|discriminate]. apply Hf.
Qed.

Lemma never_raises_for_in {A X} (xs : list X) (acc : A) (body : X → A → SE Linter A) :
  (∀ x a, never_raises (body x a)) → never_raises (for_in xs acc body).
Proof.
  intros Hbody. revert acc. induction xs as [|x xs IH]; intros acc; simpl.
  - apply never_raises_ret.
  - apply never_raises_bind; [apply Hbody | apply IH].
Qed.

Lemma never_raises_load_plugin_modules h modname :
  importable h modname = true → never_raises (load_plugin_modules h [modname]).
Proof. intros H l. rewrite load_plugin_modules_unfold, H. by eexists. Qed.

Lemma never_raises_disable h msgid :
  known_msgid h msgid = true → never_raises (disable h msgid).
Proof.
  intros H l. unfold disable. rewrite bind_unfold. cbn. rewrite H. by eexists.
Qed.

Lemma never_raises_enable h msgid :
  known_msgid h msgid = true → never_raises (enable h msgid).
Proof.
  intros H l. unfold enable. rewrite bind_unfold. cbn. rewrite H. by eexists.
Qed.

Lemma never_raises_set_option checker name value :
  never_raises (set_option checker name value).
Proof. apply never_raises_call. Qed.

(** A plugin that cannot be imported is reported, not raised. *)
Lemma load_plugin_or_report_unfold h filepath plugin errors l :
  load_plugin_or_report h filepath plugin errors l =
    (Ok (if importable h plugin then errors
         else errors ++ [_error_message filepath ("Could not load plugin " +:+ plugin)]),
     l ++ [LoadPluginModules [plugin]]).
Proof.
  unfold load_plugin_or_report, try_except.
  rewrite bind_unfold, load_plugin_modules_unfold.
  by destruct (importable h plugin).
Qed.

Lemma never_raises_load_plugin_or_report h filepath plugin errors :
  never_raises (load_plugin_or_report h filepath plugin errors).
Proof. intros l. rewrite load_plugin_or_report_unfold. by eexists. Qed.

(** A message id the engine does not know is skipped. *)
Lemma disable_if_known_unfold h msg_id u l :
  disable_if_known h msg_id u l = (Ok (), l ++ [Disable msg_id]).
Proof.
  unfold disable_if_known, try_except, disable. rewrite bind_unfold. cbn.
  by destruct (known_msgid h msg_id).
Qed.

Lemma never_raises_disable_if_known h msg_id u :
  never_raises (disable_if_known h msg_id u).
Proof. intros l. rewrite disable_if_known_unfold. by eexists. Qed.

Create HintDb never_raises discriminated.
#[local] Hint Resolve never_raises_ret never_raises_gets never_raises_call
  never_raises_load_plugin_modules never_raises_disable never_raises_enable
  never_raises_set_option never_raises_load_plugin_or_report
  never_raises_disable_if_known : never_raises.
#[local] Hint Extern 2 (never_raises (_ ≫= _)) =>
  apply never_raises_bind; [|intros] : never_raises.
#[local] Hint Extern 2 (never_raises (for_in _ _ _)) =>
  apply never_raises_for_in; intros : never_raises.
#[local] Hint Extern 3 (never_raises (if ?b then _ else _)) =>
  destruct b : never_raises.
#[local] Hint Extern 3 (never_raises (match ?x with _ => _ end)) =>
  destruct x : never_raises.

Lemma never_raises_set_profile_options opts checker u :
  never_raises (set_profile_options opts checker u).
Proof. unfold set_profile_options. auto 10 with never_raises. Qed.

Lemma never_raises_set_max_line_length n checker u :
  never_raises (set_max_line_length n checker u).
Proof. unfold set_max_line_length. auto 10 with never_raises. Qed.

#[local] Hint Resolve never_raises_set_profile_options
  never_raises_set_max_line_length : never_raises.

(** The profile layer returns when the engine is ready for it. *)
Lemma _prospector_configure_returns h cfg :
  profile_layer_ready h cfg → never_raises (_prospector_configure h cfg).
Proof.
  intros [Hplugins Htoggles].
  unfold fixed_toggles in Htoggles. rewrite !Forall_cons in Htoggles.
  destruct Htoggles as (? & ? & ? & ? & _).
  unfold hinted_plugins in Hplugins. cbn in Hplugins.
  unfold _prospector_configure. cbv zeta.
  repeat case_bool_decide; cbn in Hplugins; rewrite ?Forall_cons in Hplugins;
    destruct_and?; auto 30 with never_raises.
Qed.

Lemma appends_disable_if_known h msg_id u : appends (disable_if_known h msg_id u).
Proof. intros l. rewrite disable_if_known_unfold. by eexists. Qed.

#[local] Hint Resolve appends_disable_if_known : appends.

(** The profile layer only adds calls. *)
Lemma appends__prospector_configure h cfg : appends (_prospector_configure h cfg).
Proof. unfold _prospector_configure. cbv zeta. auto 40 with appends. Qed.

(** The loop over the disabled messages of the profile calls [disable] once
    for each of them, in order. *)
Lemma for_in_disable_if_known h msgs l :
  for_in msgs () (disable_if_known h) l = (Ok (), l ++ (Disable <$> msgs)).
Proof.
  revert l. induction msgs as [|m msgs IH]; intros l; simpl.
  - by rewrite app_nil_r.
  - rewrite bind_unfold, disable_if_known_unfold. rewrite IH.
    by rewrite <- app_assoc.
Qed.

(** The loops over plugin lists return and call [load_plugin_modules] only. *)
Lemma for_in_load_plugin_or_report h filepath plugins errors l :
  ∃ errors',
    for_in plugins errors (load_plugin_or_report h filepath) l
    = (Ok errors', l ++ ((λ p, LoadPluginModules [p]) <$> plugins)).
Proof.
  revert errors l. induction plugins as [|p plugins IH]; intros errors l; simpl.
  - exists errors. by rewrite app_nil_r.
  - rewrite bind_unfold, load_plugin_or_report_unfold.
    destruct (IH (if importable h p then errors
                  else errors ++ [_error_message filepath
                                    ("Could not load plugin " +:+ p)])
                 (l ++ [LoadPluginModules [p]])) as [errors' ->].
    exists errors'. by rewrite <- app_assoc.
Qed.

(** In the history the profile layer leaves, the [disable] of a message the
    profile disables is there. *)
Lemma _prospector_configure_history h cfg l msgs l' X :
  _prospector_configure h cfg l = (Ok msgs, l') →
  X ∈ get_disabled_messages cfg →
  ∃ before between, l' = l ++ before ++ [Disable X] ++ between.
Proof.
  unfold _prospector_configure. cbv zeta. intros H HX.
  apply bind_Ok_inv in H as (? & l1 & H1 & H).
  apply bind_Ok_inv in H as (? & l2 & H2 & H).
  apply bind_Ok_inv in H as (? & l3 & H3 & H).
  apply bind_Ok_inv in H as (errors & l4 & H4 & H).
  apply bind_Ok_inv in H as (? & l5 & H5 & H).
  apply appends_Ok in H1 as [a1 ->]; [|auto 10 with appends].
  apply appends_Ok in H2 as [a2 ->]; [|auto 10 with appends].
  apply appends_Ok in H3 as [a3 ->]; [|auto 10 with appends].
  apply appends_Ok in H4 as [a4 ->]; [|auto 10 with appends].
  rewrite for_in_disable_if_known in H5. simplify_eq.
  apply appends_Ok in H as [a5 ->]; [|auto 30 with appends].
  apply list_elem_of_split in HX as (m1 & m2 & ->).
  exists (a1 ++ a2 ++ a3 ++ a4 ++ (Disable <$> m1)), ((Disable <$> m2) ++ a5).
  rewrite fmap_app, fmap_cons. by rewrite <- !app_assoc.
Qed.

(** The file layer returns: it reads the file and loads the plugins the
    file names, reporting those that cannot be imported. *)
Lemma _pylintrc_configure_unfold h pylintrc l :
  ∃ more after,
    _pylintrc_configure h pylintrc l
    = (Ok more, l ++ [ConfigFromFile pylintrc] ++ after)
    ∧ Forall is_load_plugin after.
Proof.
  unfold _pylintrc_configure. cbv zeta.
  rewrite bind_unfold. unfold config_from_file at 1.
  rewrite bind_unfold. cbn.
  rewrite bind_unfold. unfold gets at 1. cbv beta iota.
  destruct (plugins_loaded_by h pylintrc); cbn.
  - by exists [], [].
  - destruct (config_load_plugins h _) as [plugins|].
    + destruct (for_in_load_plugin_or_report h (path_str pylintrc) plugins []
                  (l ++ [ConfigFromFile pylintrc])) as [more ->].
      exists more, ((λ p, LoadPluginModules [p]) <$> plugins).
      split; [by rewrite <- app_assoc|].
      apply Forall_fmap, Forall_true. by intros p.
    + by exists [], [].
Qed.

(** ** The state of a message *)

Lemma msg_state_app h l1 l2 X :
  msg_state h (l1 ++ l2) X = foldl (apply_call h X) (msg_state h l1 X) l2.
Proof. unfold msg_state. apply foldl_app. Qed.

Lemma msg_state_load_plugins h l after X :
  Forall is_load_plugin after → msg_state h (l ++ after) X = msg_state h l X.
Proof.
  intros Hafter. rewrite msg_state_app. generalize (msg_state h l X) as state.
  induction Hafter as [|c after Hc _ IH]; intros state; [done|].
  destruct c; try done. apply IH.
Qed.

Lemma msg_state_config_from_file h l config_file X b :
  file_msg_state h config_file X = Some b →
  msg_state h (l ++ [ConfigFromFile config_file]) X = Some b.
Proof. intros H. rewrite msg_state_app. cbn. by rewrite H. Qed.

(** C7: when a configuration file is used, it is read after the profile has
    been applied, and nothing but plugin loads follows. So for a message X
    that the profile disables and the file enables, [disable(X)] comes
    before the reading of the file in the linter's history, and the state of
    X at the end of [_get_pylint_configuration] is the one the file gives:
    enabled. *)
Theorem file_layer_wins h check_paths cfg opts tool linter X :
  X ∈ get_disabled_messages cfg →
  use_external_config cfg = true →
  locate_pylintrc h cfg opts ≠ PyNone →
  file_msg_state h (locate_pylintrc h cfg opts) X = Some true →
  profile_layer_ready h cfg →
  ∃ msgs tool' before between after,
    let pylintrc := locate_pylintrc h cfg opts in
    let linter' :=
      linter ++ before ++ [Disable X] ++ between ++ [ConfigFromFile pylintrc] ++ after in
    _get_pylint_configuration h check_paths cfg opts (tool, linter)
      = (Ok (msgs, pylintrc), (tool', linter'))
    ∧ Forall is_load_plugin after
    ∧ (known_msgid h X = true →
       msg_state h (linter ++ before ++ [Disable X]) X = Some false)
    ∧ msg_state h linter' X = Some true.
Proof.
  intros HX Hext Hrc Hfile Hready.
  rewrite _get_pylint_configuration_unfold. cbv zeta.
  destruct (_prospector_configure_returns h cfg Hready
    ((linter ++ [LoadCommandLineConfiguration check_paths]) ++ [LoadDefaultPlugins]))
    as [msgs Hmsgs].
  destruct (_prospector_configure h cfg _) as [r linter2] eqn:Hprofile.
  cbn in Hmsgs. subst r.
  destruct (_prospector_configure_history _ _ _ _ _ X Hprofile HX)
    as (before & between & ->).
  rewrite Hext, bool_decide_eq_true_2 by done.
  destruct (_pylintrc_configure_unfold h (locate_pylintrc h cfg opts)
    (((linter ++ [LoadCommandLineConfiguration check_paths]) ++ [LoadDefaultPlugins])
       ++ before ++ [Disable X] ++ between)) as (more & after & -> & Hafter).
  exists (msgs ++ more), (set_args (Some (command_line_args h check_paths)) tool),
    ([LoadCommandLineConfiguration check_paths; LoadDefaultPlugins] ++ before),
    between, after.
  assert (Hshape : ∀ rest : list Call,
    ((linter ++ [LoadCommandLineConfiguration check_paths]) ++ [LoadDefaultPlugins])
      ++ before ++ rest
    = linter ++ ([LoadCommandLineConfiguration check_paths; LoadDefaultPlugins]
                   ++ before) ++ rest).
  { intros rest. by rewrite <- !app_assoc. }
  split; [|split; [done|split]].
  - f_equal. f_equal. rewrite <- !app_assoc. reflexivity.
  - intros Hknown. rewrite app_assoc, msg_state_app. cbn.
    by rewrite String.eqb_refl, Hknown.
  - rewrite !app_assoc. rewrite msg_state_load_plugins by done.
    by apply msg_state_config_from_file.
Qed.

Lemma file_layer_wins_witness :
  let h := sample_host id (λ _, true) quiet_engine in
  ∃ linter',
    (_get_pylint_configuration h ["/proj/pkg"]%string (sample_config [])
       ∅ (__init__, [])).2.2 = linter'
    ∧ msg_state h linter' "missing-docstring" = Some true.
Proof.
  cbv zeta.
  destruct (file_layer_wins (sample_host id (λ _, true) quiet_engine)
    ["/proj/pkg"]%string (sample_config []) ∅ __init__ [] "missing-docstring")
    as (msgs & tool' & before & between & after & Hrun & _ & _ & Hstate).
  - apply list_elem_of_here.
  - reflexivity.
  - vm_compute. discriminate.
  - reflexivity.
  - split; repeat constructor.
  - eexists. split; [|exact Hstate]. cbv zeta in Hrun. by rewrite Hrun.
Defined.

(** ** Looking for the configuration file *)

Lemma first_existing_filter h workdir names :
  first_existing h workdir names
  = match List.filter (path_exists h) ((λ name, OsPath.join workdir [name]) <$> names) with
    | [] => PyNone
    | first :: _ => PyStr first
    end.
Proof.
  induction names as [|name names IH]; [done|]. cbn.
  by destruct (path_exists h _).
Qed.

Lemma truthy_not_None v : truthy v = true → v ≠ PyNone.
Proof. by intros H ->. Qed.

Lemma locate_pylintrc_discovery_order h cfg opts :
  locate_pylintrc h cfg opts = discovery_order h cfg opts.
Proof.
  unfold locate_pylintrc, discovery_order, py_or. cbv zeta.
  destruct (truthy (dict_get opts "config_file")) eqn:Hexplicit.
  - rewrite Hexplicit. by rewrite bool_decide_eq_false_2 by
      (intros H; by apply (truthy_not_None _ Hexplicit)).
  - destruct (truthy (external_config_location cfg)) eqn:Hsupplied.
    + by rewrite bool_decide_eq_false_2 by
        (intros H; by apply (truthy_not_None _ Hsupplied)).
    + destruct (decide (find_pylintrc h = PyNone)) as [Hnone|Hsome].
      * rewrite Hnone. rewrite bool_decide_eq_true_2 by done.
        rewrite bool_decide_eq_false_2 by (intros H; by apply H).
        apply first_existing_filter.
      * by rewrite bool_decide_eq_false_2, bool_decide_eq_true_2.
Qed.

(** C9: the configuration file is looked for in the order stated (explicit
    path, supplied location, the engine's locator, then the four
    conventional names in the working directory, the first that exists
    winning). When nothing is found [_get_pylint_configuration] returns the
    messages of the profile layer with [None] as identifier; when a file is
    found and external configuration is in use, the file is the identifier. *)
Theorem config_file_discovery h cfg opts :
  locate_pylintrc h cfg opts = discovery_order h cfg opts
  ∧ (∀ check_paths tool linter,
      discovery_order h cfg opts = PyNone →
      profile_layer_ready h cfg →
      ∃ msgs,
        (_get_pylint_configuration h check_paths cfg opts (tool, linter)).1
        = Ok (msgs, PyNone))
  ∧ (∀ check_paths tool linter,
      use_external_config cfg = true →
      discovery_order h cfg opts ≠ PyNone →
      profile_layer_ready h cfg →
      ∃ msgs,
        (_get_pylint_configuration h check_paths cfg opts (tool, linter)).1
        = Ok (msgs, discovery_order h cfg opts)).
Proof.
  split; [apply locate_pylintrc_discovery_order|].
  split; intros check_paths tool linter.
  - intros Hnone Hready.
    rewrite _get_pylint_configuration_unfold. cbv zeta.
    destruct (_prospector_configure_returns h cfg Hready
      ((linter ++ [LoadCommandLineConfiguration check_paths]) ++ [LoadDefaultPlugins]))
      as [msgs Hmsgs].
    destruct (_prospector_configure h cfg _) as [r linter2].
    cbn in Hmsgs. subst r. exists msgs.
    rewrite locate_pylintrc_discovery_order, Hnone.
    by destruct (use_external_config cfg).
  - intros Hext Hfound Hready.
    rewrite _get_pylint_configuration_unfold. cbv zeta.
    destruct (_prospector_configure_returns h cfg Hready
      ((linter ++ [LoadCommandLineConfiguration check_paths]) ++ [LoadDefaultPlugins]))
      as [msgs Hmsgs].
    destruct (_prospector_configure h cfg _) as [r linter2].
    cbn in Hmsgs. subst r.
    rewrite locate_pylintrc_discovery_order, Hext, bool_decide_eq_true_2 by done.
    destruct (_pylintrc_configure_unfold h (discovery_order h cfg opts) linter2)
      as (more & after & -> & _).
    by exists (msgs ++ more).
Qed.

Lemma config_file_discovery_witness :
  let h := sample_host id (λ _, true) quiet_engine in
  (∃ msgs,
     (_get_pylint_configuration h [] bare_config ∅ (__init__, [])).1
     = Ok (msgs, PyNone))
  ∧ (∃ msgs,
     (_get_pylint_configuration h [] (sample_config []) ∅ (__init__, [])).1
     = Ok (msgs, PyStr "/proj/setup.cfg")).
Proof.
  cbv zeta. split.
  - destruct (config_file_discovery (sample_host id (λ _, true) quiet_engine)
      bare_config ∅) as (_ & Hnone & _).
    apply Hnone; [reflexivity | split; repeat constructor].
  - destruct (config_file_discovery (sample_host id (λ _, true) quiet_engine)
      (sample_config []) ∅) as (_ & _ & Hfound).
    apply (Hfound [] __init__ []);
      [reflexivity | vm_compute; discriminate | split; repeat constructor].
Defined.

(** ** Further facts on the layers, the search path and the scan roots *)

(** The file is read right after the profile layer, whatever the profile
    layer did: its calls come first in the history, then the reading of the
    file, then the loading of the plugins the file names. *)
Lemma file_read_after_profile h check_paths cfg opts tool linter msgs linter2 :
  _prospector_configure h cfg
    ((linter ++ [LoadCommandLineConfiguration check_paths]) ++ [LoadDefaultPlugins])
    = (Ok msgs, linter2) →
  use_external_config cfg = true →
  locate_pylintrc h cfg opts ≠ PyNone →
  ∃ more after,
    _get_pylint_configuration h check_paths cfg opts (tool, linter)
    = (Ok (msgs ++ more, locate_pylintrc h cfg opts),
       (set_args (Some (command_line_args h check_paths)) tool,
        linter2 ++ [ConfigFromFile (locate_pylintrc h cfg opts)] ++ after))
    ∧ Forall is_load_plugin after.
Proof.
  intros Hprofile Hext Hrc.
  rewrite _get_pylint_configuration_unfold. cbv zeta.
  rewrite Hprofile, Hext, bool_decide_eq_true_2 by done.
  destruct (_pylintrc_configure_unfold h (locate_pylintrc h cfg opts) linter2)
    as (more & after & -> & Hafter).
  by exists more, after.
Qed.

(** [configure] keeps the search path it found in [_orig_sys_path], also
    when it raises. *)
Lemma configure_saves_search_path h cfg ff p :
  _orig_sys_path (self (configure h cfg ff p).2) = sys_path p.
Proof.
  rewrite configure_unfold, _set_path_finder_unfold. cbv zeta.
  cbn [snd self sys_path].
  rewrite _get_pylint_configuration_unfold. cbv zeta.
  destruct (_prospector_configure h cfg _) as [[msgs|e] linter2]; [|done].
  destruct (use_external_config cfg).
  - case_bool_decide.
    + destruct (_pylintrc_configure h _ linter2) as [[more|e] linter3]; [|done].
      by destruct (known_msgid h "similarities").
    + by destruct (known_msgid h "similarities").
  - by destruct (known_msgid h "similarities").
Qed.

(** After a [configure] that returned, the adapter holds a linter. *)
Lemma configure_sets_linter h cfg ff p r p' :
  configure h cfg ff p = (Ok r, p') → is_Some (_linter (self p')).
Proof.
  rewrite configure_unfold. cbv zeta.
  destruct (_get_pylint_configuration _ _ _ _ _) as [[[msgs cb]|e] [tool linter]];
    [|done].
  destruct (known_msgid h "similarities"); [|done].
  intros [= _ <-]. by eexists.
Qed.

(** The success path: when [configure] has returned and the engine returns,
    [run] leaves the search path as it was before [configure], the engine
    being taken to rebind [sys.path] rather than to change the saved list
    in place. *)
Lemma search_path_restored_after_success h cfg ff p r p' linter reported path :
  configure h cfg ff p = (Ok r, p') →
  _linter (self p') = Some linter →
  check h linter (_args (self p')) (sys_path p') = (Ok reported, path) →
  sys_path (run h ff p').2 = sys_path p.
Proof.
  intros Hconf Hlinter Hcheck.
  rewrite (run_restores_after_success h ff p' linter reported path Hlinter Hcheck).
  pose proof (configure_saves_search_path h cfg ff p) as Hsaved.
  by rewrite Hconf in Hsaved.
Qed.

(** The tuples [os.path.split] makes all have two components, so sorting
    them by length leaves them in the order in which they came. *)
Lemma sort_by_len_pairs (packages : list (list string)) :
  Forall (λ package, length package = 2) packages →
  sort_by_len packages = packages.
Proof.
  intros Hpairs. unfold sort_by_len. apply sorted_of_ascending.
  induction Hpairs as [|package rest Hlen Hrest IH]; [done|].
  destruct rest as [|next rest]; [done|].
  rewrite ascending_cons, IH. apply Forall_cons_1 in Hrest as [Hnext _].
  rewrite Hlen, Hnext. reflexivity.
Qed.

(** For such a tuple the loop over the prefixes makes one step: the package
    is kept unless its direct parent is already a check path. *)
Lemma add_packages_pair head tail rest check_paths :
  add_packages ([head; tail] :: rest) check_paths
  = add_packages rest
      (if bool_decide (head ∈ check_paths) then check_paths
       else set_add (OsPath.join head [tail]) check_paths).
Proof.
  cbn. by destruct (bool_decide (head ∈ check_paths)).
Qed.

(** * Further properties *)

(** ** The pattern *)

Lemma append_cons a (s t : string) : String a s +:+ t = String a (s +:+ t).
Proof. reflexivity. Qed.

Lemma append_nil (t : string) : "" +:+ t = t.
Proof. reflexivity. Qed.

Lemma strip_prefix_Some p s r : Str.strip_prefix p s = Some r ↔ s = p +:+ r.
Proof.
  revert s. induction p as [|a p IH]; intros s; simpl.
  - rewrite append_nil. split; [by intros [= ->] | by intros ->].
  - rewrite append_cons. destruct s as [|b s].
    + split; intros H; discriminate.
    + destruct (Ascii.eqb_spec a b) as [->|Hne].
      * rewrite IH. split; [by intros -> | by intros [= ->]].
      * split; [discriminate | intros [= ? ?]; congruence].
Qed.

Lemma startswith_true s p : Str.startswith s p = true ↔ ∃ r, s = p +:+ r.
Proof.
  unfold Str.startswith. destruct (Str.strip_prefix p s) as [r|] eqn:H.
  - apply strip_prefix_Some in H. split; [eauto | done].
  - split; [discriminate|]. intros [r Hr]. apply strip_prefix_Some in Hr. congruence.
Qed.

Lemma dot_star_then_sound lit s cap :
  Re.dot_star_then lit s = Some cap →
  no_newline cap = true ∧ ∃ rest, s = cap +:+ lit +:+ rest.
Proof.
  revert cap. induction s as [|c s IH]; intros cap; simpl.
  - destruct (Str.startswith "" lit) eqn:Hs; [|discriminate].
    intros [= <-]. split; [done|]. by apply startswith_true in Hs.
  - assert (Hhere : (if Str.startswith (String c s) lit then Some ""%string else None)
                    = Some cap →
                    no_newline cap = true ∧ ∃ rest, String c s = cap +:+ lit +:+ rest).
    { destruct (Str.startswith (String c s) lit) eqn:Hs; [|discriminate].
      intros [= <-]. split; [done|]. by apply startswith_true in Hs. }
    destruct (Ascii.eqb c Re.newline) eqn:Hc; [exact Hhere|].
    destruct (Re.dot_star_then lit s) as [cap'|]; [|exact Hhere].
    intros [= <-]. destruct (IH cap' eq_refl) as [Hn [rest ->]].
    split; [simpl; by rewrite Hc | by exists rest].
Qed.

Lemma dot_star_then_here lit s :
  Str.startswith s lit = true → is_Some (Re.dot_star_then lit s).
Proof.
  intros Hs. destruct s as [|c s]; simpl; rewrite Hs; [by eexists|].
  destruct (Ascii.eqb c Re.newline); [by eexists|].
  by destruct (Re.dot_star_then lit s); eexists.
Qed.

Lemma dot_star_then_complete lit cap rest :
  no_newline cap = true → is_Some (Re.dot_star_then lit (cap +:+ lit +:+ rest)).
Proof.
  induction cap as [|c cap IH]; intros Hn.
  - rewrite append_nil. apply dot_star_then_here, startswith_true. eauto.
  - simpl in Hn. apply andb_true_iff in Hn as [Hc Hn].
    apply negb_true_iff in Hc. rewrite append_cons. simpl. rewrite Hc.
    destruct (IH Hn) as [cap' ->]. by eexists.
Qed.

Lemma tail_sound s name :
  Re.tail s = Some name →
  no_newline name = true ∧ ∃ rest, s = " " +:+ name +:+ " from wildcard import" +:+ rest.
Proof.
  unfold Re.tail. destruct (Str.strip_prefix " " s) as [r|] eqn:Hr; [|discriminate].
  cbn [mbind option_bind]. intros H.
  apply dot_star_then_sound in H as [Hn [rest ->]].
  apply strip_prefix_Some in Hr. eauto.
Qed.

Lemma tail_complete name rest :
  no_newline name = true →
  is_Some (Re.tail (" " +:+ name +:+ " from wildcard import" +:+ rest)).
Proof.
  intros Hn. unfold Re.tail.
  destruct (Str.strip_prefix " " (" " +:+ name +:+ " from wildcard import" +:+ rest))
    as [r|] eqn:Hr.
  - apply strip_prefix_Some in Hr. apply (inj (String.app " ")) in Hr as <-.
    cbn [mbind option_bind]. by apply dot_star_then_complete.
  - assert (Str.strip_prefix " " (" " +:+ name +:+ " from wildcard import" +:+ rest)
            = Some (name +:+ " from wildcard import" +:+ rest)) by
      by apply strip_prefix_Some.
    congruence.
Qed.

(** Group 1 of a match is absent or is the text "(s)". *)
Lemma match_group1 s mo :
  Re._UNUSED_WILDCARD_IMPORT_RE_match s = Some mo →
  Re.group1 mo = None ∨ Re.group1 mo = Some "(s)"%string.
Proof.
  unfold Re._UNUSED_WILDCARD_IMPORT_RE_match.
  destruct (Str.strip_prefix "Unused import" s) as [rest|]; [|discriminate].
  cbn [mbind option_bind].
  destruct (Str.strip_prefix "(s)" rest ≫= Re.tail) as [g2|].
  - intros [= <-]. by right.
  - destruct (Re.tail rest); [|discriminate]. intros [= <-]. by left.
Qed.

(** X1: the pattern matches a text exactly when the text is "Unused import",
    then "(s)" or nothing, a space, a name without a newline, the words
    " from wildcard import", and anything after them. *)
Theorem pattern_matches_iff (s : string) :
  is_Some (Re._UNUSED_WILDCARD_IMPORT_RE_match s) ↔
  ∃ plural name rest,
    (plural = ""%string ∨ plural = "(s)"%string)
    ∧ no_newline name = true
    ∧ s = "Unused import" +:+ plural +:+ " " +:+ name
            +:+ " from wildcard import" +:+ rest.
Proof.
  unfold Re._UNUSED_WILDCARD_IMPORT_RE_match. split.
  - intros [mo Hmo].
    destruct (Str.strip_prefix "Unused import" s) as [r1|] eqn:H1; [|discriminate].
    apply strip_prefix_Some in H1 as ->. cbn [mbind option_bind] in Hmo.
    destruct (Str.strip_prefix "(s)" r1) as [r2|] eqn:H2;
      cbn [mbind option_bind] in Hmo.
    + apply strip_prefix_Some in H2 as ->.
      destruct (Re.tail r2) as [name|] eqn:Ht.
      * apply tail_sound in Ht as [Hn [rest ->]].
        exists "(s)"%string, name, rest. auto.
      * destruct (Re.tail ("(s)" +:+ r2)) as [name|] eqn:Ht'; [|discriminate].
        apply tail_sound in Ht' as [_ [rest Hrest]]. discriminate.
    + destruct (Re.tail r1) as [name|] eqn:Ht; [|discriminate].
      apply tail_sound in Ht as [Hn [rest ->]].
      exists ""%string, name, rest. auto.
  - intros (plural & name & rest & Hplural & Hn & ->).
    assert (Str.strip_prefix "Unused import"
              ("Unused import" +:+ plural +:+ " " +:+ name
                 +:+ " from wildcard import" +:+ rest)
            = Some (plural +:+ " " +:+ name +:+ " from wildcard import" +:+ rest))
      as -> by by apply strip_prefix_Some.
    cbn [mbind option_bind]. destruct (tail_complete name rest Hn) as [g2 Hg2].
    destruct Hplural as [-> | ->].
    + rewrite append_nil.
      assert (Str.strip_prefix "(s)" (" " +:+ name +:+ " from wildcard import" +:+ rest)
              = None) as -> by reflexivity.
      cbn [mbind option_bind]. rewrite Hg2. by eexists.
    + assert (Str.strip_prefix "(s)"
                ("(s)" +:+ " " +:+ name +:+ " from wildcard import" +:+ rest)
              = Some (" " +:+ name +:+ " from wildcard import" +:+ rest))
        as -> by by apply strip_prefix_Some.
      cbn [mbind option_bind]. rewrite Hg2. by eexists.
Qed.

(** ** The groups of [_combine_w0614] *)

Lemma Location_eqb_key a b : Location_eqb a b = true ↔ loc_key a = loc_key b.
Proof.
  unfold Location_eqb, loc_key. rewrite !andb_true_iff, String.eqb_eq, !Z.eqb_eq.
  split; [intros [[-> ->] ->]; done | intros [= -> -> ->]; done].
Qed.

Lemma Location_eqb_key_false a b : Location_eqb a b = false ↔ loc_key a ≠ loc_key b.
Proof.
  rewrite <- Location_eqb_key. by destruct (Location_eqb a b).
Qed.

Lemma filter_none {A} (f : A → bool) (l : list A) :
  (∀ x, x ∈ l → f x = false) → List.filter f l = [].
Proof.
  induction l as [|x l IH]; intros H; [done|]. cbn.
  rewrite (H x) by set_solver. apply IH. intros y Hy. apply H. set_solver.
Qed.

Lemma findings_at_snoc k seen m :
  findings_at k (seen ++ [m])
  = findings_at k seen
    ++ (if String.eqb (code m) W0614 && Location_eqb k (location m) then [m] else []).
Proof.
  unfold findings_at. rewrite List.filter_app. cbn.
  by destruct (String.eqb (code m) W0614 && Location_eqb k (location m)).
Qed.

Lemma findings_at_key k k' seen :
  loc_key k = loc_key k' → findings_at k seen = findings_at k' seen.
Proof.
  intros Hk. unfold findings_at. apply List.filter_ext. intros m. f_equal.
  destruct (Location_eqb k (location m)) eqn:H1, (Location_eqb k' (location m)) eqn:H2;
    try done.
  - apply Location_eqb_key in H1. apply Location_eqb_key_false in H2. congruence.
  - apply Location_eqb_key in H2. apply Location_eqb_key_false in H1. congruence.
Qed.

(** [by_loc_append] either extends the first group with the key of [loc] or,
    when there is none, opens a group at the end. *)
Lemma by_loc_append_cases loc m by_loc :
  (∃ d1 k ms d2,
      by_loc = d1 ++ (k, ms) :: d2
      ∧ loc_key k = loc_key loc
      ∧ Forall (λ g, loc_key g.1 ≠ loc_key loc) d1
      ∧ by_loc_append loc m by_loc = d1 ++ (k, ms ++ [m]) :: d2)
  ∨ (Forall (λ g, loc_key g.1 ≠ loc_key loc) by_loc
     ∧ by_loc_append loc m by_loc = by_loc ++ [(loc, [m])]).
Proof.
  induction by_loc as [|[k ms] rest IH]; simpl.
  - right. by split.
  - destruct (Location_eqb k loc) eqn:Hk.
    + left. exists [], k, ms, rest. apply Location_eqb_key in Hk. by repeat split.
    + apply Location_eqb_key_false in Hk.
      destruct IH as [(d1 & k' & ms' & d2 & -> & Hk' & Hd1 & ->) | [Hall ->]].
      * left. exists ((k, ms) :: d1), k', ms', d2.
        repeat split; [done | by constructor].
      * right. split; [by constructor | done].
Qed.

Lemma by_loc_append_inv by_loc seen m :
  code m = W0614 → by_loc_inv by_loc seen →
  by_loc_inv (by_loc_append (location m) m by_loc) (seen ++ [m]).
Proof.
  intros Hc (Hnodup & Hgroups & Hcover).
  assert (Hcode : String.eqb (code m) W0614 = true) by by apply String.eqb_eq.
  destruct (by_loc_append_cases (location m) m by_loc)
    as [(d1 & k & ms & d2 & -> & Hk & Hd1 & ->) | [Hall ->]].
  - (* the finding joins the group of its key *)
    split; [|split].
    + revert Hnodup. by rewrite !fmap_app, !fmap_cons.
    + intros k' ms' Hin.
      rewrite findings_at_snoc, Hcode. cbn [andb].
      apply elem_of_app in Hin as [Hin | Hin];
        [|apply elem_of_cons in Hin as [[= -> ->] | Hin]].
      * destruct (Hgroups k' ms') as [-> Hfirst]; [set_solver|].
        rewrite Forall_forall in Hd1. specialize (Hd1 _ Hin). cbn in Hd1.
        apply Location_eqb_key_false in Hd1. rewrite Hd1, app_nil_r. done.
      * destruct (Hgroups k ms) as [-> (first & rest & Hms & Hfirst)]; [set_solver|].
        apply Location_eqb_key in Hk. rewrite Hk. split; [done|].
        exists first, (rest ++ [m]). by rewrite Hms.
      * destruct (Hgroups k' ms') as [-> Hfirst]; [set_solver|].
        assert (loc_key k' ≠ loc_key (location m)) as Hne.
        { rewrite <- Hk. rewrite fmap_app, fmap_cons in Hnodup.
          apply NoDup_app in Hnodup as (_ & _ & Hnodup).
          apply NoDup_cons in Hnodup as [Hnotin _]. cbn in Hnotin.
          intros Heq. apply Hnotin. rewrite <- Heq.
          apply (list_elem_of_fmap_2 (λ g, loc_key g.1) _ (k', findings_at k' seen)), Hin. }
        apply Location_eqb_key_false in Hne. rewrite Hne, app_nil_r. done.
    + intros m' Hm' Hc'. apply elem_of_app in Hm' as [Hm' | Hm'].
      * destruct (Hcover m' Hm' Hc') as (k' & ms' & Hin & Hkey).
        apply elem_of_app in Hin as [Hin | Hin];
          [|apply elem_of_cons in Hin as [[= -> ->] | Hin]].
        -- exists k', ms'. split; [set_solver | done].
        -- exists k, (ms ++ [m]). split; [set_solver | done].
        -- exists k', ms'. split; [set_solver | done].
      * apply list_elem_of_singleton in Hm' as ->.
        exists k, (ms ++ [m]). split; [set_solver | done].
  - (* the finding opens a group *)
    rewrite Forall_forall in Hall.
    assert (Hnone : findings_at (location m) seen = []).
    { unfold findings_at. apply filter_none. intros x Hx.
      destruct (String.eqb (code x) W0614) eqn:Hcx; [|done]. cbn [andb].
      apply String.eqb_eq in Hcx.
      destruct (Hcover x Hx Hcx) as (k' & ms' & Hin & Hkey).
      apply Location_eqb_key_false. rewrite <- Hkey.
      intros Heq. by apply (Hall _ Hin). }
    split; [|split].
    + rewrite fmap_app. apply NoDup_app. split; [done|]. split.
      * intros key Hkey Hnew. cbn in Hnew. apply list_elem_of_singleton in Hnew as ->.
        apply list_elem_of_fmap in Hkey as (g & Hg & Hin). by apply (Hall _ Hin).
      * cbn. apply NoDup_singleton.
    + intros k' ms' Hin. rewrite findings_at_snoc, Hcode. cbn [andb].
      apply elem_of_app in Hin as [Hin | Hin].
      * destruct (Hgroups k' ms' Hin) as [-> Hfirst].
        specialize (Hall _ Hin). cbn in Hall.
        apply Location_eqb_key_false in Hall. by rewrite Hall, app_nil_r.
      * apply list_elem_of_singleton in Hin as [= -> ->].
        rewrite Hnone, Location_eqb_refl. split; [done|]. by exists m, [].
    + intros m' Hm' Hc'. apply elem_of_app in Hm' as [Hm' | Hm'].
      * destruct (Hcover m' Hm' Hc') as (k' & ms' & Hin & Hkey).
        exists k', ms'. split; [set_solver | done].
      * apply list_elem_of_singleton in Hm' as ->.
        exists (location m), [m]. split; [set_solver | done].
Qed.

Lemma by_loc_inv_other by_loc seen m :
  code m ≠ W0614 → by_loc_inv by_loc seen → by_loc_inv by_loc (seen ++ [m]).
Proof.
  intros Hc (Hnodup & Hgroups & Hcover).
  apply String.eqb_neq in Hc as Hcode.
  split; [done|split].
  - intros k ms Hin. rewrite findings_at_snoc, Hcode, app_nil_r. by apply Hgroups.
  - intros m' Hm' Hc'. apply elem_of_app in Hm' as [Hm' | Hm']; [by apply Hcover|].
    apply list_elem_of_singleton in Hm' as ->. done.
Qed.

Lemma partition_w0614_inv messages by_loc out seen :
  by_loc_inv by_loc seen →
  by_loc_inv (partition_w0614 messages by_loc out).1 (seen ++ messages).
Proof.
  revert by_loc out seen.
  induction messages as [|m rest IH]; intros by_loc out seen Hinv; simpl.
  - by rewrite app_nil_r.
  - rewrite (cons_middle m seen rest), app_assoc.
    destruct (String.eqb (code m) W0614) eqn:Hc.
    + apply IH, by_loc_append_inv; [by apply String.eqb_eq | done].
    + apply IH, by_loc_inv_other; [by apply String.eqb_neq | done].
Qed.

(** The groups [_combine_w0614] builds from a list of messages. *)
Lemma by_loc_of_messages messages :
  by_loc_inv (partition_w0614 messages [] []).1 messages.
Proof.
  apply (partition_w0614_inv messages [] [] []).
  split; [constructor | split]; intros; by apply elem_of_nil in H.
Qed.

(** ** When [combine] returns, and what *)

Lemma collect_names_plural message_list names :
  Forall plural_wording message_list →
  collect_names message_list names
  = Ok (names ++ replicate (length message_list) (Some "(s)"%string)).
Proof.
  intros Hall. revert names.
  induction Hall as [|m rest [name Hm] Hrest IH]; intros names; simpl.
  - by rewrite app_nil_r.
  - unfold extract_name at 1. rewrite Hm. cbn. rewrite IH.
    by rewrite <- app_assoc.
Qed.

Lemma join_names_plural n :
  join_names (replicate n (Some "(s)"%string))
  = Ok (Str.join ", " (replicate n "(s)"%string)).
Proof.
  unfold join_names.
  assert (mapM id (replicate n (Some "(s)"%string)) = Some (replicate n "(s)"%string))
    as ->; [|done].
  induction n as [|n IH]; [done|]. cbn. by rewrite IH.
Qed.

Lemma synthesize_plural groups out :
  Forall plural_wording (grouped groups) →
  synthesize groups out
  = Ok (out ++ ((λ g, merged_message g.1 (length g.2)) <$> groups)).
Proof.
  revert out. induction groups as [|[loc ms] rest IH]; intros out Hall; simpl.
  - by rewrite app_nil_r.
  - unfold grouped in Hall. cbn in Hall. apply Forall_app in Hall as [Hms Hrest].
    rewrite (collect_names_plural ms [] Hms). cbn.
    rewrite join_names_plural. cbn. rewrite IH by done.
    by rewrite <- app_assoc.
Qed.

Lemma collect_names_Ok message_list names names' :
  collect_names message_list names = Ok names' →
  ∃ groups1, names' = names ++ groups1
    ∧ Forall2 (λ m g, ∃ name, Re._UNUSED_WILDCARD_IMPORT_RE_match (message m)
                               = Some (Re.MatchObj g name)) message_list groups1.
Proof.
  revert names. induction message_list as [|m rest IH]; intros names; simpl.
  - intros [= <-]. exists []. by rewrite app_nil_r.
  - unfold extract_name at 1.
    destruct (Re._UNUSED_WILDCARD_IMPORT_RE_match (message m)) as [[g name]|] eqn:Hm;
      [|discriminate].
    cbn. intros H. apply IH in H as (groups1 & -> & Hrest).
    exists (g :: groups1). split; [by rewrite <- app_assoc|].
    constructor; [by exists name | done].
Qed.

Lemma join_names_Ok names joined :
  join_names names = Ok joined → Forall is_Some names.
Proof.
  unfold join_names. destruct (mapM id names) as [strs|] eqn:H; [|discriminate].
  intros _. apply mapM_Some_1 in H.
  induction H as [|g str names strs Hg _ IH]; constructor; [|done].
  cbn in Hg. by rewrite Hg.
Qed.

Lemma synthesize_Ok_plural groups out res :
  synthesize groups out = Ok res → Forall plural_wording (grouped groups).
Proof.
  revert out. induction groups as [|[loc ms] rest IH]; intros out; simpl.
  - intros _. constructor.
  - destruct (collect_names ms []) as [names|e] eqn:Hnames; [|discriminate]. cbn.
    destruct (join_names names) as [joined|e] eqn:Hjoin; [|discriminate]. cbn.
    intros H. unfold grouped. cbn. apply Forall_app. split; [|by eapply IH].
    apply collect_names_Ok in Hnames as (groups1 & -> & Hmatch).
    apply join_names_Ok in Hjoin. cbn in Hjoin.
    clear -Hmatch Hjoin.
    induction Hmatch as [|m g ms groups1 [name Hm] _ IHm]; [constructor|].
    apply Forall_cons in Hjoin as [[g' ->] Hjoin].
    constructor; [|by apply IHm].
    destruct (match_group1 _ _ Hm) as [Hg | Hg]; cbn in Hg; [discriminate|].
    injection Hg as ->. by exists name.
Qed.

(** [_combine_w0614] on findings that all have the plural wording: the
    other messages in their order, then one message for each group. *)
Lemma _combine_w0614_plural messages :
  Forall (λ m, code m = W0614 → plural_wording m) messages →
  _combine_w0614 messages
  = Ok (filter (λ m, code m ≠ W0614) messages
        ++ ((λ g, merged_message g.1 (length g.2))
              <$> (partition_w0614 messages [] []).1)).
Proof.
  intros Hall. unfold _combine_w0614.
  destruct (partition_w0614 messages [] []) as [by_loc out] eqn:Hp.
  apply partition_w0614_spec in Hp as [Hg ->]. cbn [fst app].
  apply synthesize_plural. apply Forall_forall. intros m Hm.
  apply Hg in Hm as [Hm | [Hm Hc]]; [by apply elem_of_nil in Hm|].
  rewrite Forall_forall in Hall. by apply Hall.
Qed.

(** When [combine] returns, every finding has the plural wording. *)
Lemma combine_Ok_plural messages out :
  combine messages = Ok out →
  Forall (λ m, code m = W0614 → plural_wording m) messages.
Proof.
  intros Hout. unfold combine in Hout.
  destruct (_combine_w0614 messages) as [res|e] eqn:Hres; [|discriminate].
  unfold _combine_w0614 in Hres.
  destruct (partition_w0614 messages [] []) as [by_loc passed] eqn:Hp.
  apply partition_w0614_spec in Hp as [Hg _].
  apply synthesize_Ok_plural in Hres. rewrite Forall_forall in Hres.
  apply Forall_forall. intros m Hm Hc. apply Hres, Hg. by right.
Qed.

(** X2: [combine] returns exactly when every message with the code
    "unused-wildcard-import" has a text that the pattern matches with its
    optional group "(s)" present; one message of that code with another
    wording makes it raise. *)
Theorem combine_returns_iff (messages : list Message) :
  returns (combine messages)
  ↔ Forall (λ m, code m = W0614 → plural_wording m) messages.
Proof.
  split.
  - intros [out Hout]. by apply combine_Ok_plural with out.
  - intros Hall. unfold combine. rewrite (_combine_w0614_plural _ Hall).
    by eexists.
Qed.

(** What [combine] returns, when it returns. *)
Lemma combine_Ok messages out :
  combine messages = Ok out →
  out = sorted Message_ltb
          (filter (λ m, code m ≠ W0614) messages
           ++ ((λ g, merged_message g.1 (length g.2))
                 <$> (partition_w0614 messages [] []).1)).
Proof.
  intros Hout.
  pose proof (combine_Ok_plural _ _ Hout) as Hall.
  unfold combine in Hout. rewrite (_combine_w0614_plural _ Hall) in Hout.
  by injection Hout as <-.
Qed.

Lemma filter_merged_other (groups : list (Location * list Message)) :
  filter (λ m, code m ≠ W0614) ((λ g, merged_message g.1 (length g.2)) <$> groups)
  = [].
Proof.
  induction groups as [|g groups IH]; [done|].
  rewrite fmap_cons, filter_cons_False; [done|]. cbn. by intros H.
Qed.

Lemma filter_merged_same (groups : list (Location * list Message)) :
  filter (λ m, code m = W0614) ((λ g, merged_message g.1 (length g.2)) <$> groups)
  = (λ g, merged_message g.1 (length g.2)) <$> groups.
Proof.
  induction groups as [|g groups IH]; [done|].
  rewrite fmap_cons, filter_cons_True by done. by rewrite IH.
Qed.

(** X3: [combine] passes the messages of every other code through: those of
    its result are those of its argument, none lost, added or changed. *)
Theorem combine_keeps_other_messages (messages out : list Message) :
  combine messages = Ok out →
  filter (λ m, code m ≠ W0614) out ≡ₚ filter (λ m, code m ≠ W0614) messages.
Proof.
  intros Hout. rewrite (combine_Ok _ _ Hout).
  rewrite (sorted_perm Message_ltb). rewrite filter_app, filter_merged_other.
  rewrite app_nil_r.
  rewrite list_filter_filter. apply Permutation_refl'.
  apply list_filter_iff. tauto.
Qed.

Lemma combine_keeps_other_messages_witness :
  filter (λ m, code m ≠ W0614)
    [other_message; merged_message sample_location 1]
  ≡ₚ filter (λ m, code m ≠ W0614)
       [unused_import sample_location "foo"; other_message].
Proof.
  apply (combine_keeps_other_messages
           [unused_import sample_location "foo"; other_message]).
  reflexivity.
Defined.

(** X4: when [combine] returns, its result holds a message with the code
    "unused-wildcard-import" for the place (file, line, column) of every
    such message of its argument, and no two for the same place. *)
Theorem combine_one_message_per_place (messages out : list Message) :
  combine messages = Ok out →
  (∀ m, m ∈ messages → code m = W0614 →
     ∃ s, s ∈ out ∧ code s = W0614
          ∧ loc_key (location s) = loc_key (location m))
  ∧ NoDup ((λ s, loc_key (location s)) <$> filter (λ s, code s = W0614) out).
Proof.
  intros Hout. rewrite (combine_Ok _ _ Hout).
  destruct (by_loc_of_messages messages) as (Hnodup & Hgroups & Hcover).
  split.
  - intros m Hm Hc. destruct (Hcover m Hm Hc) as (k & ms & Hin & Hkey).
    exists (merged_message k (length ms)). split; [|done].
    rewrite (sorted_perm Message_ltb). apply elem_of_app. right.
    apply (list_elem_of_fmap_2 (λ g, merged_message g.1 (length g.2)) _ (k, ms)), Hin.
  - rewrite (sorted_perm Message_ltb). rewrite filter_app, filter_merged_same.
    assert (filter (λ s, code s = W0614) (filter (λ m, code m ≠ W0614) messages) = [])
      as ->.
    { clear. induction messages as [|m messages IH]; [done|].
      destruct (decide (code m = W0614)) as [Hc|Hc].
      - by rewrite (filter_cons_False (λ m, code m ≠ W0614)) by (intros H; by apply H).
      - rewrite (filter_cons_True (λ m, code m ≠ W0614)) by done.
        by rewrite filter_cons_False. }
    cbn [app]. rewrite <- list_fmap_compose. exact Hnodup.
Qed.

Lemma combine_one_message_per_place_witness :
  NoDup ((λ s, loc_key (location s))
           <$> filter (λ s, code s = W0614)
                 [other_message; merged_message sample_location 2]).
Proof.
  apply (combine_one_message_per_place
           [unused_import sample_location "foo"; other_message;
            unused_import sample_location "bar"]).
  reflexivity.
Defined.

(** X5: a message with the code "unused-wildcard-import" in the result of
    [combine] is a merged one: it comes from "pylint", stands at the
    location of the first finding of its place, and its text is the fixed
    heading followed by "(s)" once for each finding of that place,
    separated by ", ". The names of the findings do not appear. *)
Theorem combine_merged_message (messages out : list Message) (s : Message) :
  combine messages = Ok out → s ∈ out → code s = W0614 →
  ∃ first rest,
    findings_at (location s) messages = first :: rest
    ∧ location s = location first
    ∧ source s = "pylint"%string
    ∧ message s = ("Unused imports from wildcard import: "
                     +:+ Str.join ", " (replicate (S (length rest)) "(s)"%string)).
Proof.
  intros Hout Hs Hc. rewrite (combine_Ok _ _ Hout) in Hs.
  rewrite (sorted_perm Message_ltb) in Hs.
  destruct (by_loc_of_messages messages) as (_ & Hgroups & _).
  apply elem_of_app in Hs as [Hs | Hs].
  - apply list_elem_of_filter in Hs as [Hne _]. contradiction.
  - apply list_elem_of_fmap in Hs as ([k ms] & -> & Hin).
    destruct (Hgroups k ms Hin) as [Hms (first & rest & Hfirst & Hk)].
    exists first, rest. cbn. rewrite <- Hms, Hfirst. by repeat split.
Qed.

Lemma combine_merged_message_witness :
  ∃ first rest,
    findings_at sample_location
      [unused_import sample_location "foo"; other_message;
       unused_import sample_location "bar"] = first :: rest
    ∧ location (merged_message sample_location 2) = location first
    ∧ source (merged_message sample_location 2) = "pylint"%string
    ∧ message (merged_message sample_location 2)
      = ("Unused imports from wildcard import: "
           +:+ Str.join ", " (replicate (S (length rest)) "(s)"%string)).
Proof.
  apply (combine_merged_message
           [unused_import sample_location "foo"; other_message;
            unused_import sample_location "bar"]
           [other_message; merged_message sample_location 2]
           (merged_message sample_location 2)).
  - reflexivity.
  - apply elem_of_cons. right. apply list_elem_of_here.
  - reflexivity.
Defined.

(** ** Scan roots: what the two loops keep *)

Lemma set_add_subseteq x s : s ⊆ set_add x s.
Proof. intros y Hy. apply set_add_elem. by right. Qed.

(** The search through the prefixes, when every slice has a segment. *)
Lemma prefix_retained_spec check_paths package prefix_len steps :
  Forall (λ i, take (prefix_len i) package ≠ []) steps →
  prefix_retained check_paths package prefix_len steps
  = Ok (bool_decide
          (Exists (λ i, join_segments (take (prefix_len i) package) ∈ check_paths)
             steps)).
Proof.
  induction 1 as [|i steps Hi _ IH]; cbn [prefix_retained].
  - rewrite bool_decide_eq_false_2; [done|]. by intros H%Exists_nil.
  - destruct (take (prefix_len i) package) as [|a p] eqn:Htake; [done|].
    cbn [OsPath.join_star mbind result_bind].
    destruct (decide (OsPath.join a p ∈ check_paths)) as [Hin | Hin].
    + rewrite (bool_decide_eq_true_2 _ Hin).
      rewrite bool_decide_eq_true_2; [done|]. left. by rewrite Htake.
    + rewrite (bool_decide_eq_false_2 _ Hin), IH. f_equal.
      apply bool_decide_ext. rewrite Exists_cons, Htake. cbn. tauto.
Qed.

Lemma split_go_not_nil sep cur s : Str.split_go sep cur s ≠ [].
Proof.
  revert cur. induction s as [|c s IH]; intros cur; simpl; [done|].
  by destruct (Ascii.eqb c sep).
Qed.

(** The loop over the modules. *)
Lemma add_modules_spec filepaths check_paths :
  ∃ roots,
    add_modules filepaths check_paths = Ok roots
    ∧ check_paths ⊆ roots
    ∧ (∀ r, r ∈ roots → r ∈ check_paths ∨ r ∈ filepaths)
    ∧ (∀ f, f ∈ filepaths → f ∈ roots ∨ ∃ d, d ∈ dir_prefixes f ∧ d ∈ roots)
    ∧ (∀ f, f ∈ filepaths → f ∈ roots → f ∉ check_paths →
         ∀ d, d ∈ dir_prefixes f → d ∉ check_paths).
Proof.
  revert check_paths.
  induction filepaths as [|filepath rest IH]; intros check_paths.
  - exists check_paths. repeat split; set_solver.
  - cbn [add_modules].
    set (package := Str.split OsPath.sep (OsPath.dirname filepath)).
    rewrite prefix_retained_spec.
    2:{ apply Forall_forall. intros i _.
        assert (package ≠ []) by apply split_go_not_nil.
        destruct package; [done|]. by rewrite Nat.add_1_r. }
    cbn.
    assert (Hcovered :
      Exists (λ i, join_segments (take (i + 1) package) ∈ check_paths)
        (seq 0 (length package))
      ↔ ∃ d, d ∈ dir_prefixes filepath ∧ d ∈ check_paths).
    { unfold dir_prefixes. fold package. rewrite Exists_exists. split.
      - intros (i & Hi & Hin). eexists. split; [|exact Hin].
        apply list_elem_of_fmap. eauto.
      - intros (d & Hd & Hin). apply list_elem_of_fmap in Hd as (i & -> & Hi). eauto. }
    case_bool_decide as Hcov; rewrite Hcovered in Hcov.
    + destruct (IH check_paths) as (roots & -> & Hsub & Horigin & Hcover & Hfree).
      exists roots. split; [done|]. split; [done|]. split; [set_solver|]. split.
      * intros f Hf. apply elem_of_cons in Hf as [-> | Hf]; [|by apply Hcover].
        right. destruct Hcov as (d & Hd & Hin). exists d. split; [done|]. by apply Hsub.
      * intros f Hf Hroot Hnew. apply Hfree; [|done..].
        destruct (Horigin f Hroot) as [? | ?]; done.
    + destruct (IH (set_add filepath check_paths))
        as (roots & -> & Hsub & Horigin & Hcover & Hfree).
      exists roots. split; [done|].
      assert (check_paths ⊆ set_add filepath check_paths) as Hgrow
        by apply set_add_subseteq.
      split; [set_solver|]. split.
      { intros r Hr. destruct (Horigin r Hr) as [Hr' | Hr']; [|set_solver].
        apply set_add_elem in Hr' as [-> | Hr']; set_solver. }
      split.
      * intros f Hf. apply elem_of_cons in Hf as [-> | Hf]; [|by apply Hcover].
        left. apply Hsub, set_add_elem. by left.
      * intros f Hf Hroot Hnew d Hd Hin.
        destruct (decide (f = filepath)) as [-> | Hne].
        -- apply Hcov. by exists d.
        -- apply elem_of_cons in Hf as [? | Hf]; [done|].
           assert (Hnot : f ∉ set_add filepath check_paths).
           { intros Hadd. apply set_add_elem in Hadd as [? | ?]; done. }
           exact (Hfree f Hf Hroot Hnot d Hd (Hgrow d Hin)).
Qed.

(** The loop over the packages, on the tuples [os.path.split] makes. *)
Lemma add_packages_spec paths check_paths :
  ∃ roots,
    add_packages
      ((λ p : string, let '(h, t) := OsPath.split p in [h; t]) <$> paths) check_paths
    = Ok roots
    ∧ check_paths ⊆ roots
    ∧ (∀ r, r ∈ roots → r ∈ check_paths ∨ ∃ p, p ∈ paths ∧ r = package_path p)
    ∧ (∀ p, p ∈ paths → package_path p ∈ roots ∨ package_parent p ∈ roots).
Proof.
  revert check_paths. induction paths as [|path rest IH]; intros check_paths.
  - exists check_paths. repeat split; set_solver.
  - rewrite fmap_cons.
    assert (Hpath : package_path path
                    = OsPath.join (OsPath.split path).1 [(OsPath.split path).2])
      by done.
    assert (Hparent : package_parent path = (OsPath.split path).1) by done.
    destruct (OsPath.split path) as [h t]. cbn [fst snd] in Hpath, Hparent.
    rewrite add_packages_pair.
    destruct (decide (h ∈ check_paths)) as [Hin | Hin].
    + rewrite (bool_decide_eq_true_2 _ Hin).
      destruct (IH check_paths) as (roots & -> & Hsub & Horigin & Hcover).
      exists roots. split; [done|]. split; [done|]. split.
      * intros r Hr. destruct (Horigin r Hr) as [? | (p & ? & ?)]; [by left|].
        right. exists p. set_solver.
      * intros p Hp. apply elem_of_cons in Hp as [-> | Hp]; [|by apply Hcover].
        right. rewrite Hparent. by apply Hsub.
    + rewrite (bool_decide_eq_false_2 _ Hin).
      destruct (IH (set_add (OsPath.join h [t]) check_paths))
        as (roots & -> & Hsub & Horigin & Hcover).
      exists roots. split; [done|].
      pose proof (set_add_subseteq (OsPath.join h [t]) check_paths) as Hgrow.
      split; [set_solver|]. split.
      * intros r Hr. destruct (Horigin r Hr) as [Hr' | (p & ? & ?)].
        -- apply set_add_elem in Hr' as [-> | ?]; [|by left].
           right. exists path. split; [set_solver | done].
        -- right. exists p. set_solver.
      * intros p Hp. apply elem_of_cons in Hp as [-> | Hp]; [|by apply Hcover].
        left. rewrite Hpath. apply Hsub, set_add_elem. by left.
Qed.

Lemma split_pairs_length (paths : list string) :
  Forall (λ package : list string, length package = 2)
    ((λ p : string, let '(h, t) := OsPath.split p in [h; t]) <$> paths).
Proof.
  apply Forall_fmap, Forall_true. intros p. cbn. by destruct (OsPath.split p).
Qed.

(** The two loops together. *)
Lemma check_paths_set_spec found_files :
  ∃ package_roots' roots,
    package_roots found_files = Ok package_roots'
    ∧ check_paths_set found_files = Ok roots
    ∧ package_roots' ⊆ roots
    ∧ (∀ r, r ∈ roots →
         (∃ p, p ∈ iter_package_paths found_files ∧ r = package_path p)
         ∨ r ∈ iter_module_paths found_files)
    ∧ (∀ p, p ∈ iter_package_paths found_files →
         package_path p ∈ roots ∨ package_parent p ∈ roots)
    ∧ (∀ f, f ∈ iter_module_paths found_files →
         f ∈ roots ∨ ∃ d, d ∈ dir_prefixes f ∧ d ∈ roots)
    ∧ (∀ f, f ∈ iter_module_paths found_files → f ∈ roots → f ∉ package_roots' →
         ∀ d, d ∈ dir_prefixes f → d ∉ package_roots').
Proof.
  unfold package_roots, check_paths_set. cbv zeta.
  rewrite sort_by_len_pairs by apply split_pairs_length.
  destruct (add_packages_spec (iter_package_paths found_files) [])
    as (proots & -> & _ & Porigin & Pcover).
  destruct (add_modules_spec (iter_module_paths found_files) proots)
    as (roots & Hroots & Hsub & Horigin & Hcover & Hfree).
  exists proots, roots. cbn [mbind result_bind]. split; [done|]. split; [done|].
  split; [done|]. split; [|split; [|split]].
  - intros r Hr. destruct (Horigin r Hr) as [Hr' | ?]; [|by right].
    destruct (Porigin r Hr') as [Hnil | ?]; [by apply elem_of_nil in Hnil | by left].
  - intros p Hp. destruct (Pcover p Hp) as [? | ?]; [left | right]; by apply Hsub.
  - done.
  - done.
Qed.

(** X6: [_get_pylint_check_paths] returns for every set of packages and
    modules: each slice it hands to [os.path.join] holds a segment, so the
    call never lacks its first argument. Without packages and modules the
    set of check paths is empty. *)
Theorem check_paths_always_returns (order : list string → list string)
    (found_files : FileFinder) :
  returns (_get_pylint_check_paths order found_files)
  ∧ (iter_package_paths found_files = [] → iter_module_paths found_files = [] →
     check_paths_set found_files = Ok []).
Proof.
  split.
  - unfold _get_pylint_check_paths.
    destruct (check_paths_set_spec found_files) as (? & roots & _ & -> & _).
    by eexists.
  - intros Hp Hm. unfold check_paths_set. by rewrite Hp, Hm.
Qed.

Lemma check_paths_always_returns_witness :
  check_paths_set
    {| iter_package_paths := []; iter_module_paths := [];
       to_absolute_path := id; python_packages := []; python_modules := [];
       make_syspath := [] |} = Ok [].
Proof.
  apply (check_paths_always_returns id); reflexivity.
Defined.

(** X7: every check path is one of the module paths given or the joined
    form of one of the package paths given; the reduction makes up no path. *)
Theorem check_paths_come_from_input (found_files : FileFinder) (roots : list string) :
  check_paths_set found_files = Ok roots →
  ∀ r, r ∈ roots →
    (∃ p, p ∈ iter_package_paths found_files ∧ r = package_path p)
    ∨ r ∈ iter_module_paths found_files.
Proof.
  intros Hroots.
  destruct (check_paths_set_spec found_files)
    as (? & roots' & _ & Hroots' & _ & Horigin & _).
  rewrite Hroots in Hroots'. by injection Hroots' as <-.
Qed.

Lemma check_paths_come_from_input_witness :
  (∃ p, p ∈ iter_package_paths mixed_files ∧ "tool.py"%string = package_path p)
  ∨ "tool.py"%string ∈ iter_module_paths mixed_files.
Proof.
  apply (check_paths_come_from_input mixed_files ["pkg"; "tool.py"]%string).
  - reflexivity.
  - apply elem_of_cons. right. apply list_elem_of_here.
Defined.

(** X8: every package and module given is covered. A package is a check
    path (in its joined form) or the directory it lies in is one; a module is
    a check path or one of the directories above it is one. *)
Theorem check_paths_cover_input (found_files : FileFinder) (roots : list string) :
  check_paths_set found_files = Ok roots →
  (∀ p, p ∈ iter_package_paths found_files →
     package_path p ∈ roots ∨ package_parent p ∈ roots)
  ∧ (∀ f, f ∈ iter_module_paths found_files →
       f ∈ roots ∨ ∃ d, d ∈ dir_prefixes f ∧ d ∈ roots).
Proof.
  intros Hroots.
  destruct (check_paths_set_spec found_files)
    as (? & roots' & _ & Hroots' & _ & _ & Hpackages & Hmodules & _).
  rewrite Hroots in Hroots'. by injection Hroots' as <-.
Qed.

Lemma check_paths_cover_input_witness :
  "pkg/sub.py"%string ∈ ["pkg"; "tool.py"]%string
  ∨ ∃ d, d ∈ dir_prefixes "pkg/sub.py" ∧ d ∈ ["pkg"; "tool.py"]%string.
Proof.
  apply (check_paths_cover_input mixed_files ["pkg"; "tool.py"]%string).
  - reflexivity.
  - apply list_elem_of_here.
Defined.

(** X9: a module that is kept as a check path does not lie below a package
    that is kept: none of the directories above it is among the check paths
    the loop over the packages left. Those check paths all stay. *)
Theorem check_paths_module_not_below_package (found_files : FileFinder)
    (kept_packages roots : list string) :
  package_roots found_files = Ok kept_packages →
  check_paths_set found_files = Ok roots →
  kept_packages ⊆ roots
  ∧ ∀ f, f ∈ iter_module_paths found_files → f ∈ roots → f ∉ kept_packages →
      ∀ d, d ∈ dir_prefixes f → d ∉ kept_packages.
Proof.
  intros Hkept Hroots.
  destruct (check_paths_set_spec found_files)
    as (kept' & roots' & Hkept' & Hroots' & Hsub & _ & _ & _ & Hfree).
  rewrite Hkept in Hkept'. injection Hkept' as <-.
  rewrite Hroots in Hroots'. injection Hroots' as <-.
  by split.
Qed.

Lemma check_paths_module_not_below_package_witness :
  ["pkg"]%string ⊆ ["pkg"; "tool.py"]%string
  ∧ ∀ f, f ∈ iter_module_paths mixed_files → f ∈ ["pkg"; "tool.py"]%string →
      f ∉ ["pkg"]%string → ∀ d, d ∈ dir_prefixes f → d ∉ ["pkg"]%string.
Proof.
  apply (check_paths_module_not_below_package mixed_files); reflexivity.
Defined.

(** ** The search path, once more *)

Lemma set_add_NoDup x s : NoDup s → NoDup (set_add x s).
Proof.
  intros Hs. unfold set_add. case_bool_decide as Hin; [done|].
  apply NoDup_app. split; [done|]. split; [|apply NoDup_singleton].
  intros y Hy Hx. apply list_elem_of_singleton in Hx as ->. done.
Qed.

Lemma set_of_list_NoDup l : NoDup (set_of_list l).
Proof.
  unfold set_of_list.
  assert (∀ acc, NoDup acc → NoDup (foldl (flip set_add) acc l)) as H.
  { induction l as [|x l IH]; intros acc Hacc; [done|].
    cbn. apply IH. by apply set_add_NoDup. }
  apply H. constructor.
Qed.

(** X10: [_set_path_finder] always saves the search path it finds. With the
    option "use_pylint_default_path_finder" set it leaves [sys.path] alone;
    otherwise the new search path holds the absolute target paths and the
    former entries, and each of them once. *)
Theorem path_finder_result h extra opts p :
  (∀ l, set_iter h l ≡ₚ l) →
  let p' := (_set_path_finder h extra opts p).2 in
  _orig_sys_path (self p') = sys_path p
  ∧ (truthy (dict_get opts "use_pylint_default_path_finder") = true →
     sys_path p' = sys_path p)
  ∧ (truthy (dict_get opts "use_pylint_default_path_finder") = false →
     NoDup (sys_path p')
     ∧ ∀ x, x ∈ sys_path p' ↔ x ∈ (absolute h <$> extra) ∨ x ∈ sys_path p).
Proof.
  intros Hperm. rewrite _set_path_finder_unfold. cbn [snd self sys_path].
  split; [done|]. split; intros ->; [done|]. split.
  - rewrite Hperm. apply set_of_list_NoDup.
  - intros x. rewrite Hperm, set_of_list_elem. apply elem_of_app.
Qed.

Lemma path_finder_result_witness :
  NoDup (sys_path (_set_path_finder (sample_host reverse (λ _, true) quiet_engine)
                     ["/proj"; "/usr/lib/python3"]%string ∅ sample_process).2).
Proof.
  apply (path_finder_result (sample_host reverse (λ _, true) quiet_engine)
           ["/proj"; "/usr/lib/python3"]%string ∅ sample_process).
  - intros l. apply reverse_Permutation.
  - reflexivity.
Defined.

(** X11: [configure] records in [_orig_sys_path] the search path it finds
    when it is called, also when it raises afterwards. *)
Theorem configure_records_search_path h cfg ff p :
  _orig_sys_path (self (configure h cfg ff p).2) = sys_path p.
Proof. apply configure_saves_search_path. Qed.

(** What [configure] leaves in the adapter when it returns. *)
Lemma configure_Ok_state h cfg ff p r p' :
  configure h cfg ff p = (Ok r, p') →
  known_msgid h "similarities" = true
  ∧ _args (self p')
    = Some (command_line_args h (python_packages ff ++ python_modules ff))
  ∧ _collector (self p') = Some []
  ∧ ∃ merged jobs,
      _linter (self p') = Some ((merged ++ [Disable "similarities"; SetReporter]) ++ jobs)
      ∧ (jobs = [] ∨ jobs = [SetJobs (_cpu_count h)]).
Proof.
  rewrite configure_unfold. cbv zeta.
  destruct (_set_path_finder _ _ _ _).2 as [tool0 path0]. cbn [self sys_path].
  rewrite _get_pylint_configuration_unfold. cbv zeta.
  destruct (_prospector_configure h cfg _) as [[msgs|e] linter2]; [|done].
  assert (Hfinish : ∀ (cb : pyval) (ms : list Message) (linter : Linter),
    (if known_msgid h "similarities"
     then
       (Ok (cb, ms),
        {| self :=
             set_linter
               (Some (if (config_jobs h ((linter ++ [Disable "similarities"])
                                           ++ [SetReporter]) =? 0)%Z
                      then ((linter ++ [Disable "similarities"]) ++ [SetReporter])
                             ++ [SetJobs (_cpu_count h)]
                      else (linter ++ [Disable "similarities"]) ++ [SetReporter]))
               (set_collector (Some [])
                  (set_args (Some (command_line_args h
                     (python_packages ff ++ python_modules ff))) tool0));
           sys_path := path0 |})
     else
       (Raise (UnknownMessageError "similarities"),
        {| self := set_args (Some (command_line_args h
                     (python_packages ff ++ python_modules ff))) tool0;
           sys_path := path0 |}))
    = (Ok r, p') →
    known_msgid h "similarities" = true
    ∧ _args (self p')
      = Some (command_line_args h (python_packages ff ++ python_modules ff))
    ∧ _collector (self p') = Some []
    ∧ ∃ merged jobs,
        _linter (self p')
        = Some ((merged ++ [Disable "similarities"; SetReporter]) ++ jobs)
        ∧ (jobs = [] ∨ jobs = [SetJobs (_cpu_count h)])).
  { intros cb ms linter.
    destruct (known_msgid h "similarities"); [|done].
    intros [= _ <-]. cbn. repeat split.
    exists linter.
    destruct (config_jobs h _ =? 0)%Z.
    - exists [SetJobs (_cpu_count h)]. split; [|by right].
      by rewrite <- !app_assoc.
    - exists []. split; [|by left]. by rewrite app_nil_r, <- !app_assoc. }
  destruct (use_external_config cfg).
  - case_bool_decide.
    + destruct (_pylintrc_configure h _ linter2) as [[more|e] linter3]; [|done].
      apply Hfinish.
    + apply Hfinish.
  - apply Hfinish.
Qed.

(** ** A run after a configuration *)

(** X12: after a [configure] that returned, [run] hands the engine the
    arguments the command line configuration gave for the packages and
    modules, and its outcome is the engine's: when the engine raises, [run]
    raises the same exception; when it returns, [run] returns [combine] of
    the messages the engine reported. *)
Theorem run_outcome h cfg ff p r p' :
  configure h cfg ff p = (Ok r, p') →
  ∃ linter,
    _linter (self p') = Some linter
    ∧ _args (self p')
      = Some (command_line_args h (python_packages ff ++ python_modules ff))
    ∧ ∀ outcome path,
        check h linter (_args (self p')) (sys_path p') = (outcome, path) →
        (run h ff p').1 = outcome ≫= combine.
Proof.
  intros Hconf.
  destruct (configure_Ok_state _ _ _ _ _ _ Hconf)
    as (_ & Hargs & Hcollector & merged & jobs & Hlinter & _).
  eexists. split; [exact Hlinter|]. split; [exact Hargs|].
  intros outcome path Hcheck.
  unfold run. rewrite bind_unfold. unfold linter_check.
  rewrite Hlinter, Hcheck. destruct outcome as [reported|e]; [|done].
  rewrite bind_unfold. cbn. rewrite Hcollector. reflexivity.
Qed.

Lemma run_outcome_witness :
  let h := sample_host id (λ _, true) quiet_engine in
  (run h sample_files
     (configure h (sample_config []) sample_files sample_process).2).1
  = Ok [].
Proof.
  cbv zeta.
  destruct (run_outcome (sample_host id (λ _, true) quiet_engine)
              (sample_config []) sample_files sample_process
              (PyStr "/proj/setup.cfg", [])
              (configure (sample_host id (λ _, true) quiet_engine)
                 (sample_config []) sample_files sample_process).2 eq_refl)
    as (linter & Hlinter & _ & Hrun).
  injection Hlinter as <-.
  exact (Hrun (Ok []) ["/proj"; "/usr/lib/python3"]%string eq_refl).
Defined.

(** X13: the success path of the search path. When [configure] has
    returned and the engine returns, [run] leaves [sys.path] equal to its
    value before [configure]. The engine may have given [sys.path] another
    value in between; with the option "use_pylint_default_path_finder" set,
    where [sys.path] is still the saved list itself, it is taken to leave
    that list as it was. *)
Theorem run_restores_search_path h cfg ff p r p' linter reported path :
  configure h cfg ff p = (Ok r, p') →
  _linter (self p') = Some linter →
  check h linter (_args (self p')) (sys_path p') = (Ok reported, path) →
  (truthy (dict_get (tool_options cfg) "use_pylint_default_path_finder") = false
   ∨ path = sys_path p') →
  sys_path (run h ff p').2 = sys_path p.
Proof.
  intros Hconf Hlinter Hcheck _.
  by apply (search_path_restored_after_success h cfg ff p r p' linter reported path).
Qed.

Lemma run_restores_search_path_witness :
  let h := sample_host id (λ _, true) quiet_engine in
  sys_path (run h sample_files
              (configure h (sample_config []) sample_files sample_process).2).2
  = sys_path sample_process.
Proof.
  cbv zeta.
  eapply (run_restores_search_path (sample_host id (λ _, true) quiet_engine)
            (sample_config []) sample_files sample_process).
  - reflexivity.
  - reflexivity.
  - reflexivity.
  - left. reflexivity.
Defined.

(** X14: after every [configure] that returned, the linter it leaves has
    "similarities" disabled, whatever the profile and the configuration file
    said about it: that [disable] is the last call that touches a message,
    and only the reporter and the job count are set after it. *)
Theorem configure_disables_similarities h cfg ff p r p' :
  configure h cfg ff p = (Ok r, p') →
  ∃ linter,
    _linter (self p') = Some linter
    ∧ msg_state h linter "similarities" = Some false.
Proof.
  intros Hconf.
  destruct (configure_Ok_state _ _ _ _ _ _ Hconf)
    as (Hknown & _ & _ & merged & jobs & Hlinter & Hjobs).
  eexists. split; [exact Hlinter|].
  rewrite !msg_state_app. cbn. rewrite Hknown. cbn.
  by destruct Hjobs as [-> | ->].
Qed.

Lemma configure_disables_similarities_witness :
  let h := sample_host id (λ _, true) quiet_engine in
  ∃ linter,
    _linter (self (configure h (sample_config []) sample_files sample_process).2)
    = Some linter
    ∧ msg_state h linter "similarities" = Some false.
Proof.
  cbv zeta.
  apply (configure_disables_similarities (sample_host id (λ _, true) quiet_engine)
           (sample_config []) sample_files sample_process
           (PyStr "/proj/setup.cfg", [])).
  reflexivity.
Defined.

(** ** When the layers return, and what they report *)

Lemma load_if_hinted_Ok h (b : bool) modname l x l1 :
  (if b then load_plugin_modules h [modname] else mret ()) l = (Ok x, l1) →
  b = true → importable h modname = true.
Proof.
  intros H ->. rewrite load_plugin_modules_unfold in H.
  by destruct (importable h modname).
Qed.

Lemma disable_Ok h msgid l x l1 :
  disable h msgid l = (Ok x, l1) → known_msgid h msgid = true.
Proof.
  unfold disable. rewrite bind_unfold. cbn. by destruct (known_msgid h msgid).
Qed.

Lemma enable_Ok h msgid l x l1 :
  enable h msgid l = (Ok x, l1) → known_msgid h msgid = true.
Proof.
  unfold enable. rewrite bind_unfold. cbn. by destruct (known_msgid h msgid).
Qed.

(** The loop over a plugin list reports the plugins that cannot be
    imported. *)
Lemma for_in_plugin_reports h filepath plugins errors l :
  for_in plugins errors (load_plugin_or_report h filepath) l
  = (Ok (errors ++ plugin_reports h filepath plugins),
     l ++ ((λ p, LoadPluginModules [p]) <$> plugins)).
Proof.
  revert errors l. induction plugins as [|p plugins IH]; intros errors l.
  - cbn. by rewrite !app_nil_r.
  - cbn [for_in]. rewrite bind_unfold, load_plugin_or_report_unfold, IH.
    unfold plugin_reports. cbn [List.filter fmap list_fmap].
    destruct (importable h p); cbn; by rewrite <- !app_assoc.
Qed.

(** The profile layer, when it returns. *)
Lemma _prospector_configure_Ok h cfg l msgs l' :
  _prospector_configure h cfg l = (Ok msgs, l') →
  profile_layer_ready h cfg
  ∧ msgs = plugin_reports h
             (OsPath.join (workdir cfg) [profile_name cfg])
             (profile_load_plugins cfg).
Proof.
  unfold _prospector_configure. cbv zeta. intros H.
  apply bind_Ok_inv in H as (? & l1 & H1 & H).
  apply bind_Ok_inv in H as (? & l2 & H2 & H).
  apply bind_Ok_inv in H as (? & l3 & H3 & H).
  apply bind_Ok_inv in H as (errors & l4 & H4 & H).
  apply bind_Ok_inv in H as (? & l5 & _ & H).
  apply bind_Ok_inv in H as (checkers & l6 & _ & H).
  apply bind_Ok_inv in H as (? & l7 & _ & H).
  apply bind_Ok_inv in H as (? & l8 & H8 & H).
  apply bind_Ok_inv in H as (? & l9 & H9 & H).
  apply bind_Ok_inv in H as (? & l10 & H10 & H).
  apply bind_Ok_inv in H as (? & l11 & H11 & H).
  apply bind_Ok_inv in H as (checkers' & l12 & _ & H).
  apply bind_Ok_inv in H as (? & l13 & _ & H).
  rewrite ret_unfold in H. injection H as <- <-.
  rewrite for_in_plugin_reports in H4. injection H4 as <- _.
  split; [|done]. split.
  - pose proof (load_if_hinted_Ok _ _ _ _ _ _ H1) as Hdjango.
    pose proof (load_if_hinted_Ok _ _ _ _ _ _ H2) as Hcelery.
    pose proof (load_if_hinted_Ok _ _ _ _ _ _ H3) as Hflask.
    unfold hinted_plugins. cbn.
    repeat case_bool_decide; cbn; repeat constructor; auto.
  - apply disable_Ok in H8, H11. apply enable_Ok in H9, H10.
    unfold fixed_toggles. by repeat constructor.
Qed.


(** X16: the messages the profile layer returns are the reports of the
    plugins named by the profile that cannot be imported, in the order of
    the profile, each located at the profile file in the working directory;
    nothing else is reported. *)
Theorem profile_layer_messages h cfg l msgs l' :
  _prospector_configure h cfg l = (Ok msgs, l') →
  msgs = plugin_reports h (OsPath.join (workdir cfg) [profile_name cfg])
           (profile_load_plugins cfg).
Proof. intros H. by apply _prospector_configure_Ok in H as [_ ->]. Qed.

Lemma profile_layer_messages_witness :
  let h := sample_host id (λ m, negb (String.eqb m "missing_plugin")) quiet_engine in
  let cfg :=
    {| libraries := []; workdir := "/proj"; profile_name := "profile.yaml";
       profile_load_plugins := ["a_plugin"; "missing_plugin"]%string;
       get_disabled_messages := ["removed-message"]%string;
       tool_options := ∅; max_line_length := Some 100%Z;
       use_external_config := false; external_config_location := PyNone |} in
  [_error_message "/proj/profile.yaml" "Could not load plugin missing_plugin"]
  = plugin_reports h (OsPath.join (workdir cfg) [profile_name cfg])
      (profile_load_plugins cfg).
Proof.
  cbv zeta.
  match goal with
  | |- _ = plugin_reports ?h (OsPath.join (workdir ?cfg) _) _ =>
      apply (profile_layer_messages h cfg [] _ (_prospector_configure h cfg []).2)
  end.
  vm_compute. reflexivity.
Defined.

(** The file layer spelled out. *)
Lemma _pylintrc_configure_exact h pylintrc l :
  let plugins :=
    if plugins_loaded_by h pylintrc then []
    else default [] (config_load_plugins h (l ++ [ConfigFromFile pylintrc])) in
  _pylintrc_configure h pylintrc l
  = (Ok (plugin_reports h (path_str pylintrc) plugins),
     l ++ [ConfigFromFile pylintrc] ++ ((λ p, LoadPluginModules [p]) <$> plugins)).
Proof.
  cbv zeta. unfold _pylintrc_configure.
  rewrite bind_unfold. unfold config_from_file at 1.
  rewrite bind_unfold. cbn.
  rewrite bind_unfold. unfold gets at 1. cbv beta iota.
  destruct (plugins_loaded_by h pylintrc); cbn; [done|].
  destruct (config_load_plugins h _) as [plugins|]; cbn; [|done].
  rewrite for_in_plugin_reports. by rewrite <- app_assoc.
Qed.


(** ** The kinds of calls a layer makes *)

Section AppendsOnly.
Context (P : Call → Prop).

Lemma appends_only_ret {A} (a : A) : appends_only P (mret a).
Proof. intros l. exists []. by rewrite app_nil_r. Qed.

Lemma appends_only_raise {A} (e : exn) : appends_only P (raise e : SE Linter A).
Proof. intros l. exists []. by rewrite app_nil_r. Qed.

Lemma appends_only_gets {A} (f : Linter → A) : appends_only P (gets f).
Proof. intros l. exists []. by rewrite app_nil_r. Qed.

Lemma appends_only_call c : P c → appends_only P (call c).
Proof. intros Hc l. exists [c]. split; [done | by constructor]. Qed.

Lemma appends_only_bind {A B} (m : SE Linter A) (f : A → SE Linter B) :
  appends_only P m → (∀ a, appends_only P (f a)) → appends_only P (m ≫= f).
Proof.
  intros Hm Hf l. rewrite bind_unfold. destruct (Hm l) as (added1 & H1 & HP1).
  destruct (m l) as [[a|e] l1]; cbn in H1; subst l1.
  - destruct (Hf a (l ++ added1)) as (added2 & H2 & HP2).
    exists (added1 ++ added2). rewrite H2, app_assoc. split; [done|].
    by apply Forall_app.
  - by exists added1.
Qed.

Lemma appends_only_try_except {A} (m : SE Linter A)
    (catch : exn → option (SE Linter A)) :
  appends_only P m →
  (∀ e handler, catch e = Some handler → appends_only P handler) →
  appends_only P (try_except m catch).
Proof.
  intros Hm Hc l. unfold try_except. destruct (Hm l) as (added1 & H1 & HP1).
  destruct (m l) as [[a|e] l1]; cbn in H1; subst l1.
  - by exists added1.
  - destruct (catch e) as [handler|] eqn:He.
    + destruct (Hc e handler He (l ++ added1)) as (added2 & H2 & HP2).
      exists (added1 ++ added2). rewrite H2, app_assoc. split; [done|].
      by apply Forall_app.
    + by exists added1.
Qed.

Lemma appends_only_for_in {A X} (xs : list X) (acc : A)
    (body : X → A → SE Linter A) :
  (∀ x a, appends_only P (body x a)) → appends_only P (for_in xs acc body).
Proof.
  intros Hbody. revert acc. induction xs as [|x xs IH]; intros acc; simpl.
  - apply appends_only_ret.
  - apply appends_only_bind; [apply Hbody | apply IH].
Qed.

End AppendsOnly.

Create HintDb profile_calls discriminated.
#[local] Hint Resolve appends_only_ret appends_only_raise appends_only_gets
  : profile_calls.
#[local] Hint Extern 1 (appends_only profile_call (call _)) =>
  apply appends_only_call; exact I : profile_calls.
#[local] Hint Extern 2 (appends_only _ (_ ≫= _)) =>
  apply appends_only_bind; [|intros] : profile_calls.
#[local] Hint Extern 2 (appends_only _ (for_in _ _ _)) =>
  apply appends_only_for_in; intros : profile_calls.
#[local] Hint Extern 2 (appends_only _ (try_except _ _)) =>
  apply appends_only_try_except; [|intros [] ? ?; simplify_eq] : profile_calls.
#[local] Hint Extern 3 (appends_only _ (if ?b then _ else _)) =>
  destruct b : profile_calls.
#[local] Hint Extern 3 (appends_only _ (match ?x with _ => _ end)) =>
  destruct x : profile_calls.

Lemma profile_calls_load_plugin_modules h modnames :
  appends_only profile_call (load_plugin_modules h modnames).
Proof. unfold load_plugin_modules. auto with profile_calls. Qed.

Lemma profile_calls_disable h msgid : appends_only profile_call (disable h msgid).
Proof. unfold disable. auto with profile_calls. Qed.

Lemma profile_calls_enable h msgid : appends_only profile_call (enable h msgid).
Proof. unfold enable. auto with profile_calls. Qed.

Lemma profile_calls_set_option checker name value :
  appends_only profile_call (set_option checker name value).
Proof. unfold set_option. auto with profile_calls. Qed.

#[local] Hint Resolve profile_calls_load_plugin_modules profile_calls_disable
  profile_calls_enable profile_calls_set_option : profile_calls.

Lemma profile_calls_load_plugin_or_report h filepath plugin errors :
  appends_only profile_call (load_plugin_or_report h filepath plugin errors).
Proof. unfold load_plugin_or_report. auto 10 with profile_calls. Qed.

Lemma profile_calls_disable_if_known h msg_id u :
  appends_only profile_call (disable_if_known h msg_id u).
Proof. unfold disable_if_known. auto 10 with profile_calls. Qed.

Lemma profile_calls_set_profile_options opts checker u :
  appends_only profile_call (set_profile_options opts checker u).
Proof. unfold set_profile_options. auto 10 with profile_calls. Qed.

Lemma profile_calls_set_max_line_length n checker u :
  appends_only profile_call (set_max_line_length n checker u).
Proof. unfold set_max_line_length. auto 10 with profile_calls. Qed.

#[local] Hint Resolve profile_calls_load_plugin_or_report
  profile_calls_disable_if_known profile_calls_set_profile_options
  profile_calls_set_max_line_length : profile_calls.

Lemma profile_calls__prospector_configure h cfg :
  appends_only profile_call (_prospector_configure h cfg).
Proof. unfold _prospector_configure. cbv zeta. auto 40 with profile_calls. Qed.

(** X18: whatever its outcome, the profile layer only adds calls to the
    linter's history, and only calls that load plugins, enable or disable
    messages, or set options: it reads no configuration file, sets no
    reporter and no job count, and runs no check. *)
Theorem profile_layer_calls h cfg l :
  ∃ added,
    (_prospector_configure h cfg l).2 = l ++ added ∧ Forall profile_call added.
Proof. apply profile_calls__prospector_configure. Qed.

(** X19: when the project does not use external configuration, or when no
    configuration file is found, [_get_pylint_configuration] reads no file:
    after the command line and the default plugins the linter only gets the
    calls of the profile layer, and the identifier returned is [None]. *)
Theorem no_file_read_without_external_config h check_paths cfg opts tool linter :
  use_external_config cfg = false ∨ locate_pylintrc h cfg opts = PyNone →
  let outcome := _get_pylint_configuration h check_paths cfg opts (tool, linter) in
  (∃ added,
     outcome.2.2
     = linter ++ [LoadCommandLineConfiguration check_paths; LoadDefaultPlugins]
         ++ added
     ∧ Forall profile_call added)
  ∧ ∀ msgs configured_by, outcome.1 = Ok (msgs, configured_by) →
      configured_by = PyNone.
Proof.
  intros Hno. cbv zeta. rewrite _get_pylint_configuration_unfold. cbv zeta.
  destruct (profile_calls__prospector_configure h cfg
    ((linter ++ [LoadCommandLineConfiguration check_paths]) ++ [LoadDefaultPlugins]))
    as (added & Hadded & Hkinds).
  destruct (_prospector_configure h cfg _) as [[msgs|e] linter2];
    cbn [snd] in Hadded; subst linter2.
  - assert (Hskip :
      (if use_external_config cfg
       then if bool_decide (locate_pylintrc h cfg opts ≠ PyNone)
            then true else false
       else false) = false).
    { destruct Hno as [-> | ->]; [done|].
      destruct (use_external_config cfg); [|done].
      by rewrite bool_decide_eq_false_2 by (intros H; by apply H). }
    destruct (use_external_config cfg); [|].
    + destruct (bool_decide (locate_pylintrc h cfg opts ≠ PyNone)); [done|].
      split; [|by intros ?? [= _ <-]].
      exists added. by rewrite <- !app_assoc.
    + split; [|by intros ?? [= _ <-]].
      exists added. by rewrite <- !app_assoc.
  - split; [|by intros ?? [=]].
    exists added. by rewrite <- !app_assoc.
Qed.

Lemma no_file_read_without_external_config_witness :
  ∃ added,
    (_get_pylint_configuration (sample_host id (λ _, true) quiet_engine)
       [] bare_config ∅ (__init__, [])).2.2
    = [] ++ [LoadCommandLineConfiguration []; LoadDefaultPlugins] ++ added
    ∧ Forall profile_call added.
Proof.
  apply (no_file_read_without_external_config
           (sample_host id (λ _, true) quiet_engine) [] bare_config ∅ __init__ []).
  right. reflexivity.
Defined.

(** ** What [configure] returns *)

Lemma plugin_reports_shape h filepath plugins :
  Forall (config_problem_at filepath) (plugin_reports h filepath plugins).
Proof.
  unfold plugin_reports. apply Forall_fmap, Forall_true. intros plugin.
  by repeat split.
Qed.


(** X21: when [configure] returns, the first component of its result is the
    configuration file that was found if external configuration is in use,
    and [None] otherwise; every message of the second component is a
    "config-problem" message of "prospector" at line 0, column 0, located at
    the profile file or at that configuration file. *)
Theorem configure_result h cfg ff p r p' :
  configure h cfg ff p = (Ok r, p') →
  let pylintrc :=
    if use_external_config cfg then locate_pylintrc h cfg (tool_options cfg)
    else PyNone in
  r.1 = pylintrc
  ∧ Forall (λ m,
      config_problem_at (OsPath.join (workdir cfg) [profile_name cfg]) m
      ∨ (pylintrc ≠ PyNone ∧ config_problem_at (path_str pylintrc) m)) r.2.
Proof.
  rewrite configure_unfold. cbv zeta.
  destruct (_set_path_finder _ _ _ _).2 as [tool0 path0]. cbn [self sys_path].
  rewrite _get_pylint_configuration_unfold. cbv zeta.
  destruct (_prospector_configure h cfg _) as [[msgs|e] linter2] eqn:Hprofile;
    [|discriminate].
  apply _prospector_configure_Ok in Hprofile as [_ ->].
  pose proof (plugin_reports_shape h (OsPath.join (workdir cfg) [profile_name cfg])
                (profile_load_plugins cfg)) as Hshape.
  destruct (use_external_config cfg).
  - case_bool_decide as Hfound.
    + rewrite _pylintrc_configure_exact. cbv zeta.
      destruct (known_msgid h "similarities"); [|discriminate].
      intros [= <- _]. cbn [fst snd]. split; [done|].
      apply Forall_app. split.
      * eapply Forall_impl; [exact Hshape|]. intros m Hm. by left.
      * eapply Forall_impl; [apply plugin_reports_shape|]. intros m Hm. by right.
    + destruct (known_msgid h "similarities"); [|discriminate].
      intros [= <- _]. cbn [fst snd]. split.
      * destruct (decide (locate_pylintrc h cfg (tool_options cfg) = PyNone));
          [done | contradiction].
      * eapply Forall_impl; [exact Hshape|]. intros m Hm. by left.
  - destruct (known_msgid h "similarities"); [|discriminate].
    intros [= <- _]. cbn [fst snd]. split; [done|].
    eapply Forall_impl; [exact Hshape|]. intros m Hm. by left.
Qed.

Lemma configure_result_witness :
  (PyStr "/proj/setup.cfg", @nil Message).1 = PyStr "/proj/setup.cfg".
Proof.
  apply (configure_result (sample_host id (λ _, true) quiet_engine)
           (sample_config []) sample_files sample_process
           (PyStr "/proj/setup.cfg", [])
           (configure (sample_host id (λ _, true) quiet_engine)
              (sample_config []) sample_files sample_process).2).
  reflexivity.
Defined.
